(** * nuxt-background-removal: the canvas publisher and the recorder page

    A shallow embedding of the TypeScript of
    - [src/components/CanvasPublisher.vue] (class [OtPublisher]),
    - [src/pages/index.vue] (class [Index]),
    - [src/pages/videoRecorder.vue] (class [VideoRecorder]),
    and the properties of the compositing loop, of the start/stop life cycle
    and of the recorder that the specification states.

    Conventions.
    - A typed array ([Uint8ClampedArray], [Uint8Array]) is a [list Z]; reading
      past its end yields [undefined] ([None]) and writing past its end is
      ignored, which is what stdpp's list lookup and insert do.
    - Browser and SDK calls are opaque: a function of the source is embedded
      as a function over the component's fields that also returns the list of
      external calls it made, in program order.
    - A [throw] that nothing catches is listed among these calls, as
      [Thrown fn msg], at the point where it happens.
    - An [async] method is cut at its [await]s; the component is then a
      transition system driven by the browser's events. *)

From Stdlib Require Import ZArith QArith.
From stdpp Require Import base tactics option list strings.

Local Open Scope nat_scope.

(** ** Part 1. The masking pass of [OtPublisher.renderCanvas]

<<
    const pixels = imgData.data
    for (let i = 0; i < pixels.length; i += 4) {
        if (segmentation.data[i / 4] === 0) {
            pixels[i + 3] = 0
        }
    }
>> *)

Module Mask.

(** [i / 4] is a division of Numbers. The quotient names an element of the
    typed array only when it is whole; any other key reads [undefined]. *)
Definition quot4 (i : nat) : option nat :=
  if decide (i mod 4 = 0) then Some (i / 4) else None.

(** [segmentation.data[k]]: [None] stands for [undefined]. *)
Definition seg_read (seg : list Z) (k : option nat) : option Z :=
  k ≫= (seg !!.).

(** [segmentation.data[i / 4] === 0]; [undefined === 0] is false. *)
Definition is_background (seg : list Z) (i : nat) : bool :=
  bool_decide (seg_read seg (quot4 i) = Some 0%Z).

(** The body of the loop at index [i]. *)
Definition body (seg : list Z) (i : nat) (pixels : list Z) : list Z :=
  if is_background seg i then <[i + 3 := 0%Z]> pixels else pixels.

(** The [for] loop from index [i]; [fuel] bounds the number of iterations. *)
Fixpoint loop (fuel : nat) (seg : list Z) (i : nat) (pixels : list Z) : list Z :=
  match fuel with
  | O => pixels
  | S fuel' =>
      if decide (i < length pixels)
      then loop fuel' seg (i + 4) (body seg i pixels)
      else pixels
  end.

(** The whole pass. The loop runs at most [length pixels] times. *)
Definition mask (seg pixels : list Z) : list Z :=
  loop (length pixels) seg 0 pixels.

(** *** The same loop, recording what each iteration touches *)

Record Visit := {
  v_i : nat;                 (* the loop index *)
  v_key : option nat;        (* the index read in segmentation.data *)
  v_class : option Z;        (* what was read there *)
  v_write : option nat       (* the index written in pixels, if any *)
}.

Definition visit (seg : list Z) (i : nat) : Visit :=
  {| v_i := i;
     v_key := quot4 i;
     v_class := seg_read seg (quot4 i);
     v_write := if is_background seg i then Some (i + 3) else None |}.

Fixpoint loop_visits (fuel : nat) (seg : list Z) (i : nat) (pixels : list Z)
  : list Z * list Visit :=
  match fuel with
  | O => (pixels, [])
  | S fuel' =>
      if decide (i < length pixels)
      then let '(out, vs) := loop_visits fuel' seg (i + 4) (body seg i pixels) in
           (out, visit seg i :: vs)
      else (pixels, [])
  end.

Definition mask_visits (seg pixels : list Z) : list Z * list Visit :=
  loop_visits (length pixels) seg 0 pixels.

End Mask.

(** ** Part 2. Browser objects shared by the three files *)

Module Dom.

(** [MediaDeviceInfo], as far as the code reads it. *)
Record MediaDeviceInfo := { kind : string; deviceId : string }.

Inductive ReadyState := live | ended.

(** A [MediaStreamTrack]; [track.stop()] ends it. *)
Record Track := { track_id : nat; readyState : ReadyState }.

Definition MediaStream := list Track.

Definition track_stop (t : Track) : Track :=
  {| track_id := track_id t; readyState := ended |}.

(** [devices.find(device => device.kind === 'videoinput')] *)
Definition find_videoinput (devices : list MediaDeviceInfo)
  : option MediaDeviceInfo :=
  List.find (λ device, String.eqb (kind device) "videoinput") devices.

(** The getters [videoWidth] and [videoHeight] of both components. *)
Definition videoWidth (quality : string) : nat :=
  if String.eqb quality "high" then 640 else 320.

Definition videoHeight (quality : string) : nat :=
  if String.eqb quality "high" then 480 else 240.

End Dom.

(** ** Part 3. [OtPublisher] of CanvasPublisher.vue

    An [async] method is embedded as one function per stretch of code between
    two [await]s: [f_call] runs from the call to the first [await], and the
    later stretches run when the awaited promise settles. The component is
    then a transition system whose events are the browser's: a promise
    settles, a worker timer fires, the parent calls [stop()]. *)

Module Publisher.
Import Dom.

Record Image := { src : string }.

(** [context] is the output canvas, [cloneContext] its off-screen clone. *)
Inductive Surface := OutputCtx | CloneCtx.

Inductive ImageSource :=
| LocalVideo
| ImageOf (img : Image)
| CanvasOf (content : list Z).    (* a canvas holding these RGBA bytes *)

(** What the component does to the outside, in program order. *)
Inductive Obs :=
| CallEnumerateDevices
| CallGetUserMedia (device : string) (frameRate width height : nat)
| CallPlay
| CallGetContext2d
| CallBodyPixLoad
| CallCloneNodeGetContext2d
| CallSegmentPerson
| CallDrawImage (dst : Surface) (image : ImageSource) (x y w h : nat)
| CallGetImageData (s : Surface) (x y w h : nat)
| CallPutImageData (s : Surface) (data : list Z) (x y : nat)
| CallWorkerSetTimeout (delay : Q)       (* callback: renderCanvas, bound *)
| CallCaptureStream
| CallInitPublisher
| CallSessionPublish
| CallPublisherDestroy
| CallTrackStop (id : nat)
| Thrown (fn msg : string).              (* [fn] threw; nothing catches it *)

(** Where [mounted() -> initCanvasPublisher()] stands. *)
Inductive InitPhase :=
| NotMounted
| AwaitDevices                  (* await enumerateDevices() *)
| AwaitUserMedia                (* await getUserMedia(...) *)
| AwaitPlaying                  (* await Promise.all([play, loadeddata]) *)
| Mounted                       (* mounted() ran to its end *)
| MountRejected (msg : string). (* mounted() rejected *)

(** Where [startCanvasRendering()] stands; its promise is not awaited. *)
Inductive RenderPhase :=
| NotStarted
| AwaitModel                    (* await bodyPix.load(...) *)
| Started                       (* ran to its end: the loop was started *)
| StartRejected (msg : string).

Record State := {
  (* fields of the class *)
  publisher : bool;                   (* this.publisher is not null *)
  quality : string;
  backgroundImage : option Image;
  processCanvas : bool;
  (* this.localVideo.srcObject *)
  srcObject : option MediaStream;
  (* suspended code *)
  init : InitPhase;
  render : RenderPhase;
  awaiting : nat;     (* renderCanvas calls inside await net.segmentPerson *)
  timers : list Q     (* worker timers set and not yet fired *)
}.

(** What the browser answers when asked for a 2D context. *)
Record Env := {
  canvas2d : bool;    (* this.outputCanvas.getContext('2d') is not null *)
  clone2d : bool      (* the clone's getContext('2d') is not null *)
}.

Definition set_publisher (v : bool) (st : State) : State :=
  {| publisher := v; quality := quality st;
     backgroundImage := backgroundImage st; processCanvas := processCanvas st;
     srcObject := srcObject st; init := init st; render := render st;
     awaiting := awaiting st; timers := timers st |}.

Definition set_processCanvas (v : bool) (st : State) : State :=
  {| publisher := publisher st; quality := quality st;
     backgroundImage := backgroundImage st; processCanvas := v;
     srcObject := srcObject st; init := init st; render := render st;
     awaiting := awaiting st; timers := timers st |}.

Definition set_srcObject (v : option MediaStream) (st : State) : State :=
  {| publisher := publisher st; quality := quality st;
     backgroundImage := backgroundImage st; processCanvas := processCanvas st;
     srcObject := v; init := init st; render := render st;
     awaiting := awaiting st; timers := timers st |}.

Definition set_init (v : InitPhase) (st : State) : State :=
  {| publisher := publisher st; quality := quality st;
     backgroundImage := backgroundImage st; processCanvas := processCanvas st;
     srcObject := srcObject st; init := v; render := render st;
     awaiting := awaiting st; timers := timers st |}.

Definition set_render (v : RenderPhase) (st : State) : State :=
  {| publisher := publisher st; quality := quality st;
     backgroundImage := backgroundImage st; processCanvas := processCanvas st;
     srcObject := srcObject st; init := init st; render := v;
     awaiting := awaiting st; timers := timers st |}.

Definition set_awaiting (v : nat) (st : State) : State :=
  {| publisher := publisher st; quality := quality st;
     backgroundImage := backgroundImage st; processCanvas := processCanvas st;
     srcObject := srcObject st; init := init st; render := render st;
     awaiting := v; timers := timers st |}.

Definition set_timers (v : list Q) (st : State) : State :=
  {| publisher := publisher st; quality := quality st;
     backgroundImage := backgroundImage st; processCanvas := processCanvas st;
     srcObject := srcObject st; init := init st; render := render st;
     awaiting := awaiting st; timers := v |}.

(** The component after [created()]: the field initialisers, then
    [this.backgroundImage = new Image()] with its [src]. *)
Definition created : State :=
  {| publisher := false; quality := "high";
     backgroundImage := Some {| src := "~/assets/icons/mars_background.jpg" |};
     processCanvas := false; srcObject := None;
     init := NotMounted; render := NotStarted; awaiting := 0; timers := [] |}.

(** The delay of [workerTimers.setTimeout(..., 30)]. *)
Definition render_delay : Q := 30 # 1.

(** *** [renderCanvas] *)

(** From the call to [await net.segmentPerson(...)]. *)
Definition renderCanvas_call (st : State) : State * list Obs :=
  (set_awaiting (S (awaiting st)) st, [CallSegmentPerson]).

(** After the [await]: [seg] is [segmentation.data], [frame] is the
    [imgData.data] that [getImageData] returns. *)
Definition renderCanvas_resume (seg frame : list Z) (st : State)
  : State * list Obs :=
  let w := videoWidth (quality st) in
  let h := videoHeight (quality st) in
  let pixels := Mask.mask seg frame in
  let st1 := set_awaiting (pred (awaiting st)) st in
  let masked := [CallDrawImage CloneCtx LocalVideo 0 0 w h;
                 CallGetImageData CloneCtx 0 0 w h;
                 CallPutImageData CloneCtx pixels 0 0] in
  match backgroundImage st with
  | None => (st1, masked ++ [Thrown "renderCanvas" "Unable to get background image"])
  | Some img =>
      let drawn := masked ++
                   [CallDrawImage OutputCtx (ImageOf img) 0 0 w h;
                    CallDrawImage OutputCtx (CanvasOf pixels) 0 0 w h] in
      if processCanvas st
      then (set_timers (timers st1 ++ [render_delay]) st1,
            drawn ++ [CallWorkerSetTimeout render_delay])
      else (st1, drawn)
  end.

(** *** [startCanvasRendering] *)

Definition startCanvasRendering_call (env : Env) (st : State)
  : State * list Obs :=
  if canvas2d env
  then (set_render AwaitModel st, [CallGetContext2d; CallBodyPixLoad])
  else (set_render
          (StartRejected "Could not get canvas context to start canvas rendering") st,
        [CallGetContext2d;
         Thrown "startCanvasRendering"
                "Could not get canvas context to start canvas rendering"]).

(** After [await bodyPix.load(...)]. *)
Definition startCanvasRendering_resume (env : Env) (st : State)
  : State * list Obs :=
  if clone2d env
  then let st1 := set_render Started (set_processCanvas true st) in
       let '(st2, obs) := renderCanvas_call st1 in
       (st2, CallCloneNodeGetContext2d :: obs)
  else (set_render (StartRejected "Unable to clone canvas context") st,
        [CallCloneNodeGetContext2d;
         Thrown "startCanvasRendering" "Unable to clone canvas context"]).

(** *** [mounted] and [initCanvasPublisher] *)

Definition mounted_call (st : State) : State * list Obs :=
  (set_init AwaitDevices st, [CallEnumerateDevices]).

(** After [await enumerateDevices()]. *)
Definition initCanvasPublisher_devices (devices : list MediaDeviceInfo)
  (st : State) : State * list Obs :=
  match find_videoinput devices with
  | None => (set_init (MountRejected "Could not get video device") st,
             [Thrown "initCanvasPublisher" "Could not get video device"])
  | Some videoDevice =>
      (set_init AwaitUserMedia st,
       [CallGetUserMedia (deviceId videoDevice) 30
          (videoWidth (quality st)) (videoHeight (quality st))])
  end.

(** After [await getUserMedia(...)]. *)
Definition initCanvasPublisher_stream (stream : MediaStream) (st : State)
  : State * list Obs :=
  (set_init AwaitPlaying (set_srcObject (Some stream) st), [CallPlay]).

(** After [await Promise.all([playPromise, loadeddataPromise])]:
    [this.startCanvasRendering()] is called and not awaited, so
    [initCanvasPublisher] returns and [mounted] goes on. *)
Definition initCanvasPublisher_playing (env : Env) (st : State)
  : State * list Obs :=
  let '(st1, obs) := startCanvasRendering_call env st in
  (set_init Mounted (set_publisher true st1),
   obs ++ [CallCaptureStream; CallInitPublisher; CallSessionPublish]).

(** *** [stop] *)

Definition stop (st : State) : State * list Obs :=
  let destroyed := if publisher st then [CallPublisherDestroy] else [] in
  let st1 := set_processCanvas false st in
  match srcObject st with
  | None => (st1, destroyed ++ [Thrown "stop" "TypeError"])
  | Some stream =>
      (set_srcObject (Some (map track_stop stream)) st1,
       destroyed ++ map (λ track, CallTrackStop (track_id track)) stream)
  end.

(** *** The component as a transition system *)

Inductive Event :=
| MountedHook
| DevicesResolved (devices : list MediaDeviceInfo)
| UserMediaResolved (stream : MediaStream)
| UserMediaRejected (msg : string)
| Playing                        (* both 'play' and 'loadeddata' have fired *)
| ModelLoaded
| SegmentationResolved (seg frame : list Z)
| SegmentationRejected (msg : string)
| TimerFired
| StopCalled.

Definition step (env : Env) (st : State) (e : Event)
  : option (State * list Obs) :=
  match e with
  | MountedHook =>
      match init st with NotMounted => Some (mounted_call st) | _ => None end
  | DevicesResolved devices =>
      match init st with
      | AwaitDevices => Some (initCanvasPublisher_devices devices st)
      | _ => None
      end
  | UserMediaResolved stream =>
      match init st with
      | AwaitUserMedia => Some (initCanvasPublisher_stream stream st)
      | _ => None
      end
  | UserMediaRejected msg =>
      match init st with
      | AwaitUserMedia => Some (set_init (MountRejected msg) st,
                                [Thrown "initCanvasPublisher" msg])
      | _ => None
      end
  | Playing =>
      match init st with
      | AwaitPlaying => Some (initCanvasPublisher_playing env st)
      | _ => None
      end
  | ModelLoaded =>
      match render st with
      | AwaitModel => Some (startCanvasRendering_resume env st)
      | _ => None
      end
  | SegmentationResolved seg frame =>
      match awaiting st with
      | O => None
      | S _ => Some (renderCanvas_resume seg frame st)
      end
  | SegmentationRejected msg =>
      match awaiting st with
      | O => None
      | S n => Some (set_awaiting n st, [Thrown "renderCanvas" msg])
      end
  | TimerFired =>
      match timers st with
      | [] => None
      | _ :: rest => Some (renderCanvas_call (set_timers rest st))
      end
  | StopCalled => Some (stop st)
  end.

(** A run: the events in order, with everything observed along the way. *)
Fixpoint run (env : Env) (st : State) (es : list Event)
  : option (State * list Obs) :=
  match es with
  | [] => Some (st, [])
  | e :: es' =>
      match step env st e with
      | None => None
      | Some (st1, obs1) =>
          match run env st1 es' with
          | None => None
          | Some (st2, obs2) => Some (st2, obs1 ++ obs2)
          end
      end
  end.

Definition is_set_timeout (o : Obs) : bool :=
  match o with CallWorkerSetTimeout _ => true | _ => false end.

Definition is_iteration_end (e : Event) : bool :=
  match e with
  | SegmentationResolved _ _ | SegmentationRejected _ => true
  | _ => false
  end.

Definition on_output (o : Obs) : bool :=
  match o with CallDrawImage OutputCtx _ _ _ _ _ => true | _ => false end.

(** The draws on the output canvas come in pairs: an image, then a canvas. *)
Fixpoint layered (draws : list Obs) : bool :=
  match draws with
  | [] => true
  | CallDrawImage OutputCtx (ImageOf _) _ _ _ _
      :: CallDrawImage OutputCtx (CanvasOf _) _ _ _ _ :: rest => layered rest
  | _ => false
  end.

(** What [stop()] itself does to the outside. *)
Definition of_stop (o : Obs) : bool :=
  match o with
  | CallPublisherDestroy | CallTrackStop _ | Thrown "stop" _ => true
  | _ => false
  end.

(** Nothing of the component is pending: no promise it awaits, no timer. *)
Definition halted (st : State) : bool :=
  match init st, render st, awaiting st, timers st with
  | (Mounted | MountRejected _), (NotStarted | Started | StartRejected _), O, [] =>
      true
  | _, _, _, _ => false
  end.

Definition is_stop (e : Event) : bool :=
  match e with StopCalled => true | _ => false end.

(** What holds in every state the component can be in. *)
Record Inv (st : State) : Prop := {
  (* at most one renderCanvas is pending, as a timer or inside its await *)
  inv_single : awaiting st + length (timers st) ≤ 1;
  (* nothing renders before startCanvasRendering has run to its end *)
  inv_idle : render st ≠ Started →
             awaiting st = 0 ∧ timers st = [] ∧ processCanvas st = false;
  (* startCanvasRendering is called as the last act of initCanvasPublisher *)
  inv_init : init st ≠ Mounted → render st = NotStarted ∧ publisher st = false;
  (* the video has its stream from getUserMedia on *)
  inv_stream : init st = AwaitPlaying ∨ init st = Mounted → is_Some (srcObject st)
}.

End Publisher.

(** ** Part 4. [Index] of pages/index.vue *)

Module Index.

(** [process.env]: a variable is a string or [undefined]. *)
Record ProcessEnv := {
  API_KEY : option string;
  SESSION_ID : option string;
  OT_TOKEN : option string
}.

(** [OT.initSession(apiKey, sessionId)] *)
Record Session := { apiKey : string; sessionId : string }.

Inductive Obs :=
| CallInitSession (key id : string)
| CallConnect (token : string)
| CallAlert (msg : string)
| Thrown (fn msg : string).

Record State := {
  session : option Session;       (* the field [session], null at first *)
  connecting : list Session       (* connect() calls not yet completed *)
}.

Definition initial : State := {| session := None; connecting := [] |}.

(** [!v] for a string or [undefined]. *)
Definition truthy (v : option string) : option string :=
  match v with
  | Some s => if String.eqb s "" then None else Some s
  | None => None
  end.

(** [start()], up to and including the call of [session.connect]. *)
Definition start (env : ProcessEnv) (st : State) : State * list Obs :=
  match truthy (API_KEY env), truthy (SESSION_ID env), truthy (OT_TOKEN env) with
  | Some key, Some id, Some token =>
      let s := {| apiKey := key; sessionId := id |} in
      ({| session := session st; connecting := connecting st ++ [s] |},
       [CallInitSession key id; CallConnect token])
  | _, _, _ => (st, [Thrown "start" "Could not get env tokens"])
  end.

(** The callback given to [session.connect]; [s] is the [session] constant
    of the call of [start] that made it, [err] is the callback's argument. *)
Definition connect_callback (s : Session) (err : option string) (st : State)
  : State * list Obs :=
  match err with
  | Some e => (st, [CallAlert ("Could not connect session: " ++ e)])
  | None => ({| session := Some s; connecting := connecting st |}, [])
  end.

(** [<CanvasPublisher v-if="session" ... />] *)
Definition shows_CanvasPublisher (st : State) : bool :=
  match session st with Some _ => true | None => false end.

Inductive Event :=
| StartClicked
| ConnectCompleted (err : option string).

Definition step (env : ProcessEnv) (st : State) (e : Event)
  : option (State * list Obs) :=
  match e with
  | StartClicked => Some (start env st)
  | ConnectCompleted err =>
      match connecting st with
      | [] => None
      | s :: rest =>
          Some (connect_callback s err
                  {| session := session st; connecting := rest |})
      end
  end.

Fixpoint run (env : ProcessEnv) (st : State) (es : list Event)
  : option (State * list Obs) :=
  match es with
  | [] => Some (st, [])
  | e :: es' =>
      match step env st e with
      | None => None
      | Some (st1, obs1) =>
          match run env st1 es' with
          | None => None
          | Some (st2, obs2) => Some (st2, obs1 ++ obs2)
          end
      end
  end.

Definition is_connect (o : Obs) : bool :=
  match o with CallConnect _ => true | _ => false end.

Definition is_thrown (o : Obs) : bool :=
  match o with Thrown _ _ => true | _ => false end.

Definition is_start (e : Event) : bool :=
  match e with StartClicked => true | _ => false end.

Definition is_failure (e : Event) : bool :=
  match e with ConnectCompleted None => false | _ => true end.

Definition is_alert (o : Obs) : bool :=
  match o with CallAlert _ => true | _ => false end.

(** The errors of the failed connects of a run, in order. *)
Definition failures (es : list Event) : list string :=
  omap (λ e, match e with ConnectCompleted (Some err) => Some err | _ => None end)
       es.

End Index.

(** ** Part 5. [VideoRecorder] of pages/videoRecorder.vue

    The page has two halves that share no field: the camera with its drawing
    loop, and the recordings. *)

Module Recorder.
Import Dom.

Inductive Status := initial | started | stopped.

Inductive Obs :=
| CallEnumerateDevices
| CallGetUserMedia (device : string) (frameRate width height : nat)
| CallAddPlayListener
| CallPlay
| CallGetContext2d
| CallDrawImageVideo (x y w h : nat)
| CallWorkerSetTimeout (delay : Q)       (* callback: renderCanvas, bound *)
| CallTrackStop (id : nat)
| Thrown (fn msg : string).

(** *** The camera and the drawing loop *)

Record State := {
  mediaStreamStatus : Status;
  quality : string;
  srcObject : option MediaStream;   (* this.localVideo.srcObject *)
  play_listeners : nat;             (* 'play' listeners on localVideo *)
  awaiting_devices : nat;   (* initMediaStream calls in await enumerateDevices() *)
  awaiting_stream : nat;    (* initMediaStream calls in await getUserMedia() *)
  timers : list Q           (* worker timers set and not yet fired *)
}.

Definition mounted_state : State :=
  {| mediaStreamStatus := initial; quality := "high"; srcObject := None;
     play_listeners := 0; awaiting_devices := 0; awaiting_stream := 0;
     timers := [] |}.

Definition set_mediaStreamStatus (v : Status) (st : State) : State :=
  {| mediaStreamStatus := v; quality := quality st; srcObject := srcObject st;
     play_listeners := play_listeners st;
     awaiting_devices := awaiting_devices st;
     awaiting_stream := awaiting_stream st; timers := timers st |}.

Definition set_srcObject (v : option MediaStream) (st : State) : State :=
  {| mediaStreamStatus := mediaStreamStatus st; quality := quality st;
     srcObject := v; play_listeners := play_listeners st;
     awaiting_devices := awaiting_devices st;
     awaiting_stream := awaiting_stream st; timers := timers st |}.

Definition set_play_listeners (v : nat) (st : State) : State :=
  {| mediaStreamStatus := mediaStreamStatus st; quality := quality st;
     srcObject := srcObject st; play_listeners := v;
     awaiting_devices := awaiting_devices st;
     awaiting_stream := awaiting_stream st; timers := timers st |}.

Definition set_awaiting_devices (v : nat) (st : State) : State :=
  {| mediaStreamStatus := mediaStreamStatus st; quality := quality st;
     srcObject := srcObject st; play_listeners := play_listeners st;
     awaiting_devices := v;
     awaiting_stream := awaiting_stream st; timers := timers st |}.

Definition set_awaiting_stream (v : nat) (st : State) : State :=
  {| mediaStreamStatus := mediaStreamStatus st; quality := quality st;
     srcObject := srcObject st; play_listeners := play_listeners st;
     awaiting_devices := awaiting_devices st;
     awaiting_stream := v; timers := timers st |}.

Definition set_timers (v : list Q) (st : State) : State :=
  {| mediaStreamStatus := mediaStreamStatus st; quality := quality st;
     srcObject := srcObject st; play_listeners := play_listeners st;
     awaiting_devices := awaiting_devices st;
     awaiting_stream := awaiting_stream st; timers := v |}.

(** The delay [(1000 / 30)] of the worker timer. *)
Definition frame_delay : Q := 1000 # 30.

(** [renderCanvas()]; [canvas2d] tells whether
    [this.outputCanvas.getContext('2d')] is not null. *)
Definition renderCanvas (canvas2d : bool) (st : State) : State * list Obs :=
  if canvas2d
  then (set_timers (timers st ++ [frame_delay]) st,
        [CallGetContext2d;
         CallDrawImageVideo 0 0 (videoWidth (quality st)) (videoHeight (quality st));
         CallWorkerSetTimeout frame_delay])
  else (st, [CallGetContext2d;
             Thrown "renderCanvas" "Could not get output canvas context"]).

(** The 'play' event: every listener added so far calls [renderCanvas()]. *)
Fixpoint play_event (canvas2d : bool) (listeners : nat) (st : State)
  : State * list Obs :=
  match listeners with
  | O => (st, [])
  | S n =>
      let '(st1, obs1) := renderCanvas canvas2d st in
      let '(st2, obs2) := play_event canvas2d n st1 in
      (st2, obs1 ++ obs2)
  end.

(** [initMediaStream()], to [await enumerateDevices()]. *)
Definition initMediaStream_call (st : State) : State * list Obs :=
  (set_awaiting_devices (S (awaiting_devices st)) st, [CallEnumerateDevices]).

Definition initMediaStream_devices (devices : list MediaDeviceInfo) (st : State)
  : State * list Obs :=
  let st1 := set_awaiting_devices (pred (awaiting_devices st)) st in
  match find_videoinput devices with
  | None => (st1, [Thrown "initMediaStream" "Could not get video device"])
  | Some videoDevice =>
      (set_awaiting_stream (S (awaiting_stream st1)) st1,
       [CallGetUserMedia (deviceId videoDevice) 30
          (videoWidth (quality st)) (videoHeight (quality st))])
  end.

Definition initMediaStream_stream (stream : MediaStream) (st : State)
  : State * list Obs :=
  let st1 := set_awaiting_stream (pred (awaiting_stream st)) st in
  let st2 := set_srcObject (Some stream) st1 in
  let st3 := set_play_listeners (S (play_listeners st2)) st2 in
  (set_mediaStreamStatus started st3, [CallAddPlayListener; CallPlay]).

(** [stopMediaStream()] *)
Definition stopMediaStream (st : State) : State * list Obs :=
  match srcObject st with
  | None => (st, [Thrown "stopMediaStream" "Could not get local stream to stop"])
  | Some stream =>
      (set_mediaStreamStatus stopped
         (set_srcObject (Some (map track_stop stream)) st),
       map (λ track, CallTrackStop (track_id track)) stream)
  end.

(** [toggleMediaStream()] *)
Definition toggleMediaStream (st : State) : State * list Obs :=
  match mediaStreamStatus st with
  | initial | stopped => initMediaStream_call st
  | started => stopMediaStream st
  end.

Inductive Event :=
| MountedHook
| ToggleClicked
| DevicesResolved (devices : list MediaDeviceInfo)
| UserMediaResolved (stream : MediaStream)
| UserMediaRejected (msg : string)
| PlayFired
| TimerFired.

Definition step (canvas2d : bool) (st : State) (e : Event)
  : option (State * list Obs) :=
  match e with
  | MountedHook => Some (initMediaStream_call st)
  | ToggleClicked => Some (toggleMediaStream st)
  | DevicesResolved devices =>
      match awaiting_devices st with
      | O => None
      | S _ => Some (initMediaStream_devices devices st)
      end
  | UserMediaResolved stream =>
      match awaiting_stream st with
      | O => None
      | S _ => Some (initMediaStream_stream stream st)
      end
  | UserMediaRejected msg =>
      match awaiting_stream st with
      | O => None
      | S n => Some (set_awaiting_stream n st, [Thrown "initMediaStream" msg])
      end
  | PlayFired => Some (play_event canvas2d (play_listeners st) st)
  | TimerFired =>
      match timers st with
      | [] => None
      | _ :: rest => Some (renderCanvas canvas2d (set_timers rest st))
      end
  end.

Fixpoint run (canvas2d : bool) (st : State) (es : list Event)
  : option (State * list Obs) :=
  match es with
  | [] => Some (st, [])
  | e :: es' =>
      match step canvas2d st e with
      | None => None
      | Some (st1, obs1) =>
          match run canvas2d st1 es' with
          | None => None
          | Some (st2, obs2) => Some (st2, obs1 ++ obs2)
          end
      end
  end.

Definition set_timeout_delay (o : Obs) : option Q :=
  match o with CallWorkerSetTimeout d => Some d | _ => None end.

Definition is_timer_fired (e : Event) : bool :=
  match e with TimerFired => true | _ => false end.

(** The delays of the worker timers set, in order. *)
Definition set_timeouts (obs : list Obs) : list Q := omap set_timeout_delay obs.

End Recorder.

(** *** The recordings: [startRecording]

    Every call of [startRecording()] has its own [recorder], [data] and
    promises; the page keeps them in the order of the calls. A call is in
    one [await], of [Promise.all([stopped, recorded])]. *)

Module Recording.
Import Dom.

Record Blob := { blob_bytes : list Z; blob_type : string }.

(** [new Blob(parts, { type })]: the parts' bytes, one after the other. *)
Definition new_Blob (parts : list Blob) (type : string) : Blob :=
  {| blob_bytes := concat (map blob_bytes parts); blob_type := type |}.

(** [URL.createObjectURL(blob)] *)
Inductive URL := ObjectURL (blob : Blob).

Inductive Promise := Pending | Resolved | Rejected (reason : string).

Inductive Status := initial | started | stopped.

Record Call := {
  data : list Blob;          (* const data: Blob[] *)
  stopped_p : Promise;       (* const stopped *)
  recorded_p : Promise;      (* const recorded *)
  timeout_set : bool;        (* the setTimeout(..., 30000) has not fired *)
  returned : Promise         (* the promise of this call of startRecording *)
}.

Inductive Obs :=
| CallCaptureStream
| CallNewMediaRecorder (k : nat)
| CallRecorderStart (k : nat)
| CallSetTimeout (k : nat) (delay : Z)    (* callback: stop recorder k, resolve *)
| CallRecorderStop (k : nat)
| CallCreateObjectURL (blob : Blob)
| Thrown (fn msg : string).

Record State := {
  recordingStatus : Status;
  calls : list Call;
  recordingVideo_src : option URL;    (* this.recordingVideo.src *)
  download_href : option URL;         (* this.downloadButton.href *)
  download_name : option string       (* this.downloadButton.download *)
}.

Definition mounted_state : State :=
  {| recordingStatus := initial; calls := [];
     recordingVideo_src := None; download_href := None;
     download_name := None |}.

Definition set_calls (v : list Call) (st : State) : State :=
  {| recordingStatus := recordingStatus st; calls := v;
     recordingVideo_src := recordingVideo_src st;
     download_href := download_href st; download_name := download_name st |}.

Definition recording_timeout : Z := 30000%Z.

(** From the call to [await Promise.all([stopped, recorded])]. *)
Definition startRecording_call (st : State) : State * list Obs :=
  let k := length (calls st) in
  let call := {| data := []; stopped_p := Pending; recorded_p := Pending;
                 timeout_set := true; returned := Pending |} in
  ({| recordingStatus := started; calls := calls st ++ [call];
      recordingVideo_src := recordingVideo_src st;
      download_href := download_href st; download_name := download_name st |},
   [CallCaptureStream; CallNewMediaRecorder k; CallRecorderStart k;
    CallSetTimeout k recording_timeout]).

(** After the [await], for call [k] whose record is [c]. *)
Definition startRecording_resume (k : nat) (c : Call) (st : State)
  : State * list Obs :=
  let recordedBlob := new_Blob (data c) "video/webm" in
  let url := ObjectURL recordedBlob in
  let c' := {| data := data c; stopped_p := stopped_p c;
               recorded_p := recorded_p c; timeout_set := timeout_set c;
               returned := Resolved |} in
  ({| recordingStatus := stopped; calls := <[k := c']> (calls st);
      recordingVideo_src := Some url; download_href := Some url;
      download_name := Some "RecordedVideo.webm" |},
   [CallCreateObjectURL recordedBlob]).

(** [Promise.all([stopped, recorded])] settles: it rejects with [stopped],
    and resolves once both have resolved. Call [k] goes on accordingly. *)
Definition settle (k : nat) (c : Call) (st : State) : State * list Obs :=
  match returned c, stopped_p c, recorded_p c with
  | Pending, Rejected reason, _ =>
      (set_calls (<[k := {| data := data c; stopped_p := stopped_p c;
                            recorded_p := recorded_p c;
                            timeout_set := timeout_set c;
                            returned := Rejected reason |}]> (calls st)) st,
       [Thrown "startRecording" reason])
  | Pending, Resolved, Resolved => startRecording_resume k c st
  | _, _, _ => (set_calls (<[k := c]> (calls st)) st, [])
  end.

(** [recorder.ondataavailable = event => data.push(event.data)] *)
Definition ondataavailable (chunk : Blob) (c : Call) : Call :=
  {| data := data c ++ [chunk]; stopped_p := stopped_p c;
     recorded_p := recorded_p c; timeout_set := timeout_set c;
     returned := returned c |}.

(** A promise settles once: [resolve] and [reject] do nothing afterwards. *)
Definition settle_promise (p new : Promise) : Promise :=
  match p with Pending => new | _ => p end.

(** [recorder.onstop = resolve] *)
Definition onstop (c : Call) : Call :=
  {| data := data c; stopped_p := settle_promise (stopped_p c) Resolved;
     recorded_p := recorded_p c; timeout_set := timeout_set c;
     returned := returned c |}.

(** [recorder.onerror = event => reject(event.name)] *)
Definition onerror (name : string) (c : Call) : Call :=
  {| data := data c; stopped_p := settle_promise (stopped_p c) (Rejected name);
     recorded_p := recorded_p c; timeout_set := timeout_set c;
     returned := returned c |}.

(** The callback of the timeout: [recorder.stop(); resolve()]. *)
Definition ontimeout (c : Call) : Call :=
  {| data := data c; stopped_p := stopped_p c;
     recorded_p := settle_promise (recorded_p c) Resolved;
     timeout_set := false; returned := returned c |}.

Inductive Event :=
| RecordClicked
| DataAvailable (k : nat) (chunk : Blob)
| StopFired (k : nat)
| ErrorFired (k : nat) (name : string)
| TimeoutFired (k : nat).

Definition step (st : State) (e : Event) : option (State * list Obs) :=
  match e with
  | RecordClicked => Some (startRecording_call st)
  | DataAvailable k chunk =>
      c ← calls st !! k;
      Some (set_calls (<[k := ondataavailable chunk c]> (calls st)) st, [])
  | StopFired k =>
      c ← calls st !! k; Some (settle k (onstop c) st)
  | ErrorFired k name =>
      c ← calls st !! k; Some (settle k (onerror name c) st)
  | TimeoutFired k =>
      c ← calls st !! k;
      if timeout_set c
      then let '(st1, obs) := settle k (ontimeout c) st in
           Some (st1, CallRecorderStop k :: obs)
      else None
  end.

Fixpoint run (st : State) (es : list Event) : option (State * list Obs) :=
  match es with
  | [] => Some (st, [])
  | e :: es' =>
      match step st e with
      | None => None
      | Some (st1, obs1) =>
          match run st1 es' with
          | None => None
          | Some (st2, obs2) => Some (st2, obs1 ++ obs2)
          end
      end
  end.

(** What [settle] does: it replaces record [k], changes only its [returned]
    field, and only from [Pending]. *)
Definition settled (c : Call) : Promise :=
  match returned c, stopped_p c, recorded_p c with
  | Pending, Rejected reason, _ => Rejected reason
  | Pending, Resolved, Resolved => Resolved
  | r, _, _ => r
  end.

(** What has happened to call [k] when its record is [c], after the events
    [es]. *)
Definition call_ok (es : list Event) (k : nat) (c : Call) : Prop :=
  (timeout_set c = false → TimeoutFired k ∈ es)
  ∧ (recorded_p c = Resolved → timeout_set c = false)
  ∧ (stopped_p c = Resolved → StopFired k ∈ es)
  ∧ (returned c = Resolved → stopped_p c = Resolved ∧ recorded_p c = Resolved).

Definition page_ok (es : list Event) (st : State) : Prop :=
  (∀ k c, calls st !! k = Some c → call_ok es k c)
  ∧ (recordingStatus st = stopped →
     ∃ k c, calls st !! k = Some c ∧ returned c = Resolved).

End Recording.

(** ** Part 6. Sample runs *)

Module Scenario.
Import Dom.

Definition camera : MediaDeviceInfo :=
  {| kind := "videoinput"; deviceId := "cam0" |}.

Definition microphone : MediaDeviceInfo :=
  {| kind := "audioinput"; deviceId := "mic0" |}.

Definition stream : MediaStream :=
  [{| track_id := 0; readyState := live |};
   {| track_id := 1; readyState := live |}].

(** Two pixels: the first is background, the second foreground. *)
Definition seg : list Z := [0; 1]%Z.
Definition frame : list Z := [10; 20; 30; 255; 40; 50; 60; 255]%Z.

Definition browser : Publisher.Env :=
  {| Publisher.canvas2d := true; Publisher.clone2d := true |}.

Definition no_context : Publisher.Env :=
  {| Publisher.canvas2d := false; Publisher.clone2d := true |}.

(** A browser in which the clone of the output canvas has no 2D context. *)
Definition no_clone : Publisher.Env :=
  {| Publisher.canvas2d := true; Publisher.clone2d := false |}.

(** [mounted()] up to the point where the video plays. *)
Definition boot : list Publisher.Event :=
  [Publisher.MountedHook;
   Publisher.DevicesResolved [microphone; camera];
   Publisher.UserMediaResolved stream;
   Publisher.Playing].

(** The loop runs: the model loads, one iteration ends, its timer fires. *)
Definition looping : list Publisher.Event :=
  boot ++ [Publisher.ModelLoaded;
           Publisher.SegmentationResolved seg frame;
           Publisher.TimerFired].

(** The model arrives, and two iterations get their segmentation. *)
Definition late_model : list Publisher.Event :=
  [Publisher.ModelLoaded;
   Publisher.SegmentationResolved seg frame;
   Publisher.TimerFired;
   Publisher.SegmentationResolved seg frame].

(** The publisher when the video has just started to play. *)
Definition playing : Publisher.State :=
  {| Publisher.publisher := false; Publisher.quality := "high";
     Publisher.backgroundImage := Publisher.backgroundImage Publisher.created;
     Publisher.processCanvas := false;
     Publisher.srcObject := Some stream;
     Publisher.init := Publisher.AwaitPlaying;
     Publisher.render := Publisher.NotStarted;
     Publisher.awaiting := 0; Publisher.timers := [] |}.

(** The environment of the index page, with its three variables set. *)
Definition tokens : Index.ProcessEnv :=
  {| Index.API_KEY := Some "key"; Index.SESSION_ID := Some "room";
     Index.OT_TOKEN := Some "token" |}.

(** The recorder page while the camera runs and one timer is pending. *)
Definition filming : Recorder.State :=
  {| Recorder.mediaStreamStatus := Recorder.started;
     Recorder.quality := "high";
     Recorder.srcObject := Some stream;
     Recorder.play_listeners := 1;
     Recorder.awaiting_devices := 0; Recorder.awaiting_stream := 0;
     Recorder.timers := [Recorder.frame_delay] |}.

Definition chunk1 : Recording.Blob :=
  {| Recording.blob_bytes := [26; 69]%Z; Recording.blob_type := "video/webm" |}.

Definition chunk2 : Recording.Blob :=
  {| Recording.blob_bytes := [223]%Z; Recording.blob_type := "video/webm" |}.

(** One recording: a chunk, the timeout, the last chunk, the stop event. *)
Definition take : list Recording.Event :=
  [Recording.RecordClicked;
   Recording.DataAvailable 0 chunk1;
   Recording.TimeoutFired 0;
   Recording.DataAvailable 0 chunk2;
   Recording.StopFired 0].

End Scenario.

(** ** Part 7. The rest of the pages, and what the further properties count *)

Module IndexView.
Import Index.

(** Every session the page holds or waits for was initialised from the
    environment. *)
Definition from_env (env : ProcessEnv) (s : Session) : Prop :=
  truthy (API_KEY env) = Some (apiKey s)
  ∧ truthy (SESSION_ID env) = Some (sessionId s).

Definition sessions_from_env (env : ProcessEnv) (st : State) : Prop :=
  (∀ s, session st = Some s → from_env env s)
  ∧ Forall (from_env env) (connecting st).

End IndexView.

(** [Index.stop()] of the index page that has a Stop button:
<<
    stop() {
        this.canvasPublisher?.stop()
        this.session?.disconnect()
    }
>>
    [canvasPublisher] is the ref to the mounted child component, undefined
    while the child is not rendered. *)

Module Page.

Record State := {
  page : Index.State;
  canvasPublisher : option Publisher.State
}.

Inductive Obs :=
| OfPublisher (o : Publisher.Obs)     (* what the child's stop() did *)
| CallDisconnect.

(** The child's [stop()] throws when the video has no stream yet (reading
    [getTracks] of null); the throw leaves [Index.stop()] at once. *)
Definition stop (st : State) : State * list Obs :=
  match canvasPublisher st with
  | None =>
      (st, match Index.session (page st) with
           | Some _ => [CallDisconnect]
           | None => []
           end)
  | Some child =>
      let '(child', obs) := Publisher.stop child in
      ({| page := page st; canvasPublisher := Some child' |},
       map OfPublisher obs ++
       match Publisher.srcObject child, Index.session (page st) with
       | Some _, Some _ => [CallDisconnect]
       | _, _ => []
       end)
  end.

End Page.

(** The getter [toggleMediaStreamButtonText] of the recorder page. *)

Module RecorderView.
Import Recorder.

Definition toggleMediaStreamButtonText (st : State) : string :=
  match mediaStreamStatus st with
  | started => "Stop Media Stream"
  | _ => "Start Media Stream"
  end.

Definition is_stream_resolved (e : Event) : bool :=
  match e with UserMediaResolved _ => true | _ => false end.

Definition is_throw_of (fn : string) (o : Obs) : bool :=
  match o with Thrown f _ => String.eqb f fn | _ => false end.

(** What holds of the page in every run: a status other than initial means
    the video has a stream. *)
Definition has_stream_unless_initial (st : State) : Prop :=
  mediaStreamStatus st ≠ initial → is_Some (srcObject st).

(** The two calls [renderCanvas] makes once it has its context. *)
Definition is_drawing (o : Obs) : bool :=
  match o with
  | CallDrawImageVideo _ _ _ _ | CallWorkerSetTimeout _ => true
  | _ => false
  end.

End RecorderView.

Module PublisherView.
Import Publisher.

(** The calls of the compositing loop. *)
Definition is_render (o : Obs) : bool :=
  match o with
  | CallSegmentPerson | CallDrawImage _ _ _ _ _ _ | CallGetImageData _ _ _ _ _
  | CallPutImageData _ _ _ _ | CallWorkerSetTimeout _ => true
  | _ => false
  end.

(** Fields that no method assigns after [created()], and the publisher that
    [mounted()] sets as its last act. *)
Record Fixed (st : State) : Prop := {
  fixed_quality : quality st = quality created;
  fixed_background : backgroundImage st = backgroundImage created;
  fixed_publisher : init st = Mounted → publisher st = true;
  fixed_timers : Forall (λ d, d = render_delay) (timers st)
}.

(** The calls that [mounted()] and what it starts make on the way to the
    loop. *)
Inductive MountCall :=
| Enumerate | UserMedia | Play | Context2d | ModelLoad | CloneContext2d
| Capture | InitPublisher | Publish.

Definition is_call (c : MountCall) (o : Obs) : bool :=
  match c, o with
  | Enumerate, CallEnumerateDevices
  | UserMedia, CallGetUserMedia _ _ _ _
  | Play, CallPlay
  | Context2d, CallGetContext2d
  | ModelLoad, CallBodyPixLoad
  | CloneContext2d, CallCloneNodeGetContext2d
  | Capture, CallCaptureStream
  | InitPublisher, CallInitPublisher
  | Publish, CallSessionPublish => true
  | _, _ => false
  end.

Definition count_call (c : MountCall) (obs : list Obs) : nat :=
  length (List.filter (is_call c) obs).

(** How many of these calls have been made, by the phase reached. *)
Record Once (st : State) (obs : list Obs) : Prop := {
  once_enumerate :
    count_call Enumerate obs = match init st with NotMounted => 0 | _ => 1 end;
  once_user_media :
    count_call UserMedia obs ≤ 1
    ∧ (init st = NotMounted ∨ init st = AwaitDevices →
       count_call UserMedia obs = 0);
  once_play :
    count_call Play obs ≤ 1
    ∧ (init st = NotMounted ∨ init st = AwaitDevices
       ∨ init st = AwaitUserMedia → count_call Play obs = 0);
  once_mounted : ∀ c,
    c = Context2d ∨ c = Capture ∨ c = InitPublisher ∨ c = Publish →
    count_call c obs = match init st with Mounted => 1 | _ => 0 end;
  once_model :
    count_call ModelLoad obs ≤ 1
    ∧ (render st = NotStarted → count_call ModelLoad obs = 0);
  once_clone :
    count_call CloneContext2d obs ≤ 1
    ∧ (render st = NotStarted ∨ render st = AwaitModel →
       count_call CloneContext2d obs = 0)
}.


(** With a context missing, [startCanvasRendering] cannot reach its end. *)
Definition never_starts (env : Env) (st : State) : Prop :=
  render st ≠ Started ∧ (canvas2d env = false → render st ≠ AwaitModel).

End PublisherView.

Module RecordingView.
Import Recording.

(** The chunks that the recorder of call [k] has delivered, in order. *)
Definition chunks_of (k : nat) (es : list Event) : list Blob :=
  omap (λ e, match e with
             | DataAvailable j chunk => if decide (j = k) then Some chunk else None
             | _ => None
             end) es.

Definition is_stop_of (k : nat) (o : Obs) : bool :=
  match o with CallRecorderStop j => bool_decide (j = k) | _ => false end.

Definition is_create_url (o : Obs) : bool :=
  match o with CallCreateObjectURL _ => true | _ => false end.

Definition is_set_timeout (o : Obs) : bool :=
  match o with CallSetTimeout _ _ => true | _ => false end.

Definition is_record (e : Event) : bool :=
  match e with RecordClicked => true | _ => false end.

Definition has_returned (c : Call) : bool :=
  match returned c with Resolved => true | _ => false end.

(** How the observations so far relate to the records of the calls. *)
Record Counted (st : State) (obs : list Obs) : Prop := {
  counted_stop : ∀ k,
    length (List.filter (is_stop_of k) obs) =
      match calls st !! k with
      | Some c => if timeout_set c then 0 else 1
      | None => 0
      end;
  counted_url :
    length (List.filter is_create_url obs) =
      length (List.filter has_returned (calls st));
  counted_timeout :
    length (List.filter is_set_timeout obs) = length (calls st)
}.

(** The download fields move together. *)
Record Download (st : State) : Prop := {
  download_same : recordingVideo_src st = download_href st;
  download_named :
    download_name st =
      match download_href st with Some _ => Some "RecordedVideo.webm" | None => None end;
  download_returned :
    is_Some (download_href st) ↔ ∃ k c, calls st !! k = Some c ∧ returned c = Resolved;
  download_initial : recordingStatus st = initial ↔ calls st = []
}.

(** Call record [c'] is a later stage of [c]: what has settled stays as it
    settled, a timeout that has fired has fired, the buffer only grows. *)
Definition later_of (c c' : Call) : Prop :=
  (returned c ≠ Pending → returned c' = returned c)
  ∧ (stopped_p c ≠ Pending → stopped_p c' = stopped_p c)
  ∧ (recorded_p c ≠ Pending → recorded_p c' = recorded_p c)
  ∧ (timeout_set c = false → timeout_set c' = false)
  ∧ data c `prefix_of` data c'.

End RecordingView.

(** * Properties *)

(** ** The masking pass *)

Module MaskFacts.
Import Mask.

Lemma body_length seg i pixels : length (body seg i pixels) = length pixels.
Proof. unfold body. destruct (is_background seg i); [apply length_insert | done]. Qed.

Lemma loop_length fuel : ∀ seg i pixels,
  length (loop fuel seg i pixels) = length pixels.
Proof.
  induction fuel as [|fuel IH]; intros seg i pixels; simpl; [done|].
  case_decide; [|done]. by rewrite IH, body_length.
Qed.

(** More fuel than the loop needs changes nothing: the loop is total. *)
Lemma loop_fuel_enough fuel1 : ∀ fuel2 seg i pixels,
  length pixels ≤ i + 4 * fuel1 → fuel1 ≤ fuel2 →
  loop fuel2 seg i pixels = loop fuel1 seg i pixels.
Proof.
  induction fuel1 as [|fuel1 IH]; intros fuel2 seg i pixels Hlen Hle.
  - destruct fuel2 as [|fuel2]; simpl; [done|].
    case_decide; [lia | done].
  - destruct fuel2 as [|fuel2]; [lia|]. simpl.
    case_decide; [|done].
    apply IH; [rewrite body_length; lia | lia].
Qed.

(** In particular the fuel that [mask] gives the loop is enough. *)
Lemma mask_fuel seg pixels fuel :
  length pixels ≤ fuel → loop fuel seg 0 pixels = mask seg pixels.
Proof.
  intros Hfuel. unfold mask.
  destruct (Nat.le_gt_cases (length pixels) fuel) as [Hle|Hgt]; [|lia].
  apply loop_fuel_enough; lia.
Qed.

Lemma loop_visits_fst fuel : ∀ seg i pixels,
  (loop_visits fuel seg i pixels).1 = loop fuel seg i pixels.
Proof.
  induction fuel as [|fuel IH]; intros seg i pixels; simpl; [done|].
  case_decide; [|done].
  specialize (IH seg (i + 4) (body seg i pixels)).
  destruct (loop_visits fuel seg (i + 4) (body seg i pixels)) as [out vs].
  done.
Qed.

Lemma mask_visits_fst seg pixels : (mask_visits seg pixels).1 = mask seg pixels.
Proof. apply loop_visits_fst. Qed.

Lemma quot4_mul p : quot4 (4 * p) = Some p.
Proof.
  unfold quot4.
  replace (4 * p) with (p * 4) by lia.
  rewrite Nat.Div0.mod_mul, Nat.div_mul by lia.
  by rewrite decide_True.
Qed.

Lemma is_background_mul seg p :
  is_background seg (4 * p) = bool_decide (seg !! p = Some 0%Z).
Proof. unfold is_background. by rewrite quot4_mul. Qed.

(** What the body does to each byte. *)
Lemma body_lookup seg p pixels j :
  j < length pixels →
  body seg (4 * p) pixels !! j =
    if bool_decide (j = 4 * p + 3 ∧ seg !! p = Some 0%Z)
    then Some 0%Z else pixels !! j.
Proof.
  intros Hj. unfold body. rewrite is_background_mul.
  destruct (bool_decide_reflect (seg !! p = Some 0%Z)) as [Hs|Hs].
  - destruct (decide (j = 4 * p + 3)) as [->|Hne].
    + rewrite bool_decide_eq_true_2 by done.
      by apply list_lookup_insert_eq.
    + rewrite bool_decide_eq_false_2 by tauto.
      by apply list_lookup_insert_ne.
  - rewrite bool_decide_eq_false_2 by tauto. done.
Qed.

(** What the loop, started at pixel [p], does to each byte. *)
Lemma loop_lookup fuel : ∀ seg p pixels j,
  length pixels ≤ 4 * p + 4 * fuel →
  j < length pixels →
  loop fuel seg (4 * p) pixels !! j =
    if bool_decide (4 * p ≤ j ∧ j mod 4 = 3 ∧ seg !! (j / 4) = Some 0%Z)
    then Some 0%Z else pixels !! j.
Proof.
  induction fuel as [|fuel IH]; intros seg p pixels j Hlen Hj; cbn [loop].
  { rewrite bool_decide_eq_false_2; [done|]. lia. }
  assert (Hdiv : ∀ q, j = 4 * q + 3 → j mod 4 = 3 ∧ j / 4 = q).
  { intros q ->. replace (4 * q + 3) with (3 + q * 4) by lia.
    rewrite Nat.Div0.mod_add, Nat.div_add by lia. done. }
  case_decide as Hi.
  - replace (4 * p + 4) with (4 * S p) by lia.
    rewrite IH by (rewrite ?body_length; lia).
    rewrite body_lookup by done.
    destruct (bool_decide_reflect (4 * S p ≤ j ∧ j mod 4 = 3
                                   ∧ seg !! (j / 4) = Some 0%Z)) as [H1|H1].
    + rewrite bool_decide_eq_true_2; [done|]. intuition lia.
    + destruct (bool_decide_reflect (j = 4 * p + 3 ∧ seg !! p = Some 0%Z))
        as [[H2 H3]|H2].
      * destruct (Hdiv p H2) as [Hm Hd].
        rewrite bool_decide_eq_true_2; [done|].
        rewrite Hd. split_and!; [lia|done|done].
      * rewrite bool_decide_eq_false_2; [done|].
        intros (Hle & Hm & Hs).
        destruct (decide (4 * S p ≤ j)) as [Hge|Hlt]; [tauto|].
        pose proof (Nat.div_mod_eq j 4) as Hdm.
        assert (j = 4 * p + 3) as Hjeq by lia.
        destruct (Hdiv p Hjeq) as [_ Hd]. rewrite Hd in Hs. tauto.
  - rewrite bool_decide_eq_false_2; [done|]. lia.
Qed.

(** The pass, byte by byte. *)
Lemma mask_lookup seg pixels j :
  j < length pixels →
  mask seg pixels !! j =
    if bool_decide (j mod 4 = 3 ∧ seg !! (j / 4) = Some 0%Z)
    then Some 0%Z else pixels !! j.
Proof.
  intros Hj. unfold mask.
  change 0 with (4 * 0) at 1.
  rewrite loop_lookup by lia.
  destruct (bool_decide_reflect (j mod 4 = 3 ∧ seg !! (j / 4) = Some 0%Z)).
  - rewrite bool_decide_eq_true_2; [done|]. split; [lia|done].
  - rewrite bool_decide_eq_false_2; [done|]. tauto.
Qed.


Lemma visit_mul seg q :
  visit seg (4 * q) =
    {| v_i := 4 * q; v_key := Some q; v_class := seg !! q;
       v_write := if bool_decide (seg !! q = Some 0%Z)
                  then Some (4 * q + 3) else None |}.
Proof. unfold visit. rewrite is_background_mul. unfold seg_read. by rewrite quot4_mul. Qed.

(** The iterations of the loop started at pixel [p] of [n]. *)
Lemma loop_visits_snd fuel : ∀ seg p n pixels,
  length pixels = 4 * n → n - p ≤ fuel →
  (loop_visits fuel seg (4 * p) pixels).2 =
    map (λ q, visit seg (4 * q)) (seq p (n - p)).
Proof.
  induction fuel as [|fuel IH]; intros seg p n pixels Hlen Hfuel; cbn [loop_visits].
  { by replace (n - p) with 0 by lia. }
  case_decide as Hi.
  - specialize (IH seg (S p) n (body seg (4 * p) pixels)).
    replace (4 * p + 4) with (4 * S p) by lia.
    destruct (loop_visits fuel seg (4 * S p) (body seg (4 * p) pixels))
      as [out vs]. simpl in *.
    rewrite IH by (rewrite ?body_length; lia).
    replace (n - p) with (S (n - S p)) by lia. done.
  - by replace (n - p) with 0 by lia.
Qed.

Lemma mask_visits_snd seg pixels n :
  length pixels = 4 * n →
  (mask_visits seg pixels).2 = map (λ q, visit seg (4 * q)) (seq 0 n).
Proof.
  intros Hlen. unfold mask_visits. change 0 with (4 * 0) at 1.
  rewrite (loop_visits_snd _ seg 0 n) by lia.
  by rewrite Nat.sub_0_r.
Qed.

End MaskFacts.

Section MaskClaims.
Import Mask MaskFacts.

(** C1. In the masking pass of every iteration of the compositing loop, a
    pixel whose entry in [segmentation.data] is 0 (background) has its alpha
    byte, byte [4 p + 3] of the buffer, set to 0; and the buffer that
    [renderCanvas] puts back on the clone canvas is the result of that pass. *)
Theorem mask_background_alpha_zero (seg pixels : list Z) (p : nat) :
  4 * p + 3 < length pixels →
  seg !! p = Some 0%Z →
  mask seg pixels !! (4 * p + 3) = Some 0%Z
  ∧ ∀ st, Publisher.CallPutImageData Publisher.CloneCtx (mask seg pixels) 0 0
          ∈ (Publisher.renderCanvas_resume seg pixels st).2.
Proof.
  intros Hlt Hseg. split.
  - rewrite mask_lookup by done.
    replace (4 * p + 3) with (3 + p * 4) by lia.
    rewrite Nat.Div0.mod_add, Nat.div_add by lia.
    change (3 mod 4) with 3. change (3 / 4) with 0. simpl.
    by rewrite bool_decide_eq_true_2.
  - intros st. unfold Publisher.renderCanvas_resume.
    destruct (Publisher.backgroundImage st); [destruct (Publisher.processCanvas st)|];
      simpl; rewrite ?elem_of_app, ?elem_of_cons; auto 10.
Qed.

Lemma mask_background_alpha_zero_witness :
  mask [1; 0]%Z [10; 20; 30; 255; 40; 50; 60; 255]%Z !! 7 = Some 0%Z
  ∧ ∀ st, Publisher.CallPutImageData Publisher.CloneCtx
            (mask [1; 0]%Z [10; 20; 30; 255; 40; 50; 60; 255]%Z) 0 0
          ∈ (Publisher.renderCanvas_resume [1; 0]%Z
               [10; 20; 30; 255; 40; 50; 60; 255]%Z st).2.
Proof.
  apply (mask_background_alpha_zero [1; 0]%Z
           [10; 20; 30; 255; 40; 50; 60; 255]%Z 1); [simpl; lia | reflexivity].
Defined.

(** C3. The masking pass changes alpha bytes only: the buffer keeps its
    length, every byte that is not an alpha byte (R, G, B: index not 3
    modulo 4) is unchanged, and the alpha byte of a pixel whose entry in
    [segmentation.data] is not 0 (foreground) is unchanged. *)
Theorem mask_frame (seg pixels : list Z) :
  length (mask seg pixels) = length pixels
  ∧ (∀ j, j mod 4 ≠ 3 → mask seg pixels !! j = pixels !! j)
  ∧ (∀ p c, seg !! p = Some c → c ≠ 0%Z →
            mask seg pixels !! (4 * p + 3) = pixels !! (4 * p + 3)).
Proof.
  assert (Hlen : length (mask seg pixels) = length pixels) by apply loop_length.
  assert (Hout : ∀ j, length pixels ≤ j → mask seg pixels !! j = pixels !! j).
  { intros j Hj. rewrite !lookup_ge_None_2; [done|lia|lia]. }
  split_and!; [done| |].
  - intros j Hj. destruct (decide (j < length pixels)) as [Hlt|Hge].
    + rewrite mask_lookup by done.
      rewrite bool_decide_eq_false_2; [done|tauto].
    + apply Hout. lia.
  - intros p c Hseg Hc. destruct (decide (4 * p + 3 < length pixels)) as [Hlt|Hge].
    + rewrite mask_lookup by done.
      replace (4 * p + 3) with (3 + p * 4) by lia.
      rewrite Nat.Div0.mod_add, Nat.div_add by lia.
      change (3 / 4) with 0. simpl.
      rewrite bool_decide_eq_false_2; [done|].
      intros [_ Hz]. congruence.
    + apply Hout. lia.
Qed.

Lemma mask_frame_witness :
  mask Scenario.seg Scenario.frame !! 4 = Scenario.frame !! 4
  ∧ mask Scenario.seg Scenario.frame !! 7 = Scenario.frame !! 7.
Proof.
  destruct (mask_frame Scenario.seg Scenario.frame) as (_ & Hrgb & Halpha).
  split.
  - apply Hrgb. vm_compute. discriminate.
  - apply (Halpha 1 1%Z); [reflexivity | discriminate].
Defined.

(** C6. For an RGBA buffer of [n] pixels ([4 n] bytes) and a classification
    array with at least [n] entries, the scan is exhaustive and in bounds:
    the loop index takes the values 0, 4, ..., 4 (n - 1) in this order, so
    [i / 4] is the whole pixel number and every pixel is visited exactly
    once; every read of the classification array hits an element, and byte
    [i + 3], the only byte ever written, lies inside the buffer. *)
Theorem mask_scan_exhaustive_in_bounds (seg pixels : list Z) (n : nat) :
  length pixels = 4 * n →
  n ≤ length seg →
  (mask_visits seg pixels).1 = mask seg pixels
  ∧ map v_i (mask_visits seg pixels).2 = map (λ p, 4 * p) (seq 0 n)
  ∧ map v_key (mask_visits seg pixels).2 = map Some (seq 0 n)
  ∧ Forall (λ v, v_i v mod 4 = 0
                 ∧ (∃ p, v_key v = Some p ∧ 4 * p = v_i v ∧ p < length seg)
                 ∧ is_Some (v_class v)
                 ∧ v_i v + 3 < length pixels
                 ∧ (v_write v = None ∨ v_write v = Some (v_i v + 3)))
           (mask_visits seg pixels).2.
Proof.
  intros Hlen Hseg. rewrite (mask_visits_snd seg pixels n Hlen).
  split_and!.
  - apply mask_visits_fst.
  - rewrite map_map. apply map_ext. intros q. by rewrite visit_mul.
  - rewrite map_map. apply map_ext. intros q. by rewrite visit_mul.
  - apply Forall_map, Forall_forall. intros q Hq.
    apply elem_of_seq in Hq. rewrite visit_mul. cbn [v_i v_key v_class v_write].
    split_and!.
    + replace (4 * q) with (q * 4) by lia. apply Nat.Div0.mod_mul.
    + exists q. split_and!; [done|done|lia].
    + apply lookup_lt_is_Some. lia.
    + lia.
    + case_bool_decide; auto.
Qed.

Lemma mask_scan_exhaustive_in_bounds_witness :
  (mask_visits [0; 7]%Z [1; 2; 3; 4; 5; 6; 7; 8]%Z).1
    = mask [0; 7]%Z [1; 2; 3; 4; 5; 6; 7; 8]%Z
  ∧ map v_i (mask_visits [0; 7]%Z [1; 2; 3; 4; 5; 6; 7; 8]%Z).2
    = map (λ p, 4 * p) (seq 0 2)
  ∧ map v_key (mask_visits [0; 7]%Z [1; 2; 3; 4; 5; 6; 7; 8]%Z).2
    = map Some (seq 0 2)
  ∧ Forall (λ v, v_i v mod 4 = 0
                 ∧ (∃ p, v_key v = Some p ∧ 4 * p = v_i v
                         ∧ p < length [0; 7]%Z)
                 ∧ is_Some (v_class v)
                 ∧ v_i v + 3 < length [1; 2; 3; 4; 5; 6; 7; 8]%Z
                 ∧ (v_write v = None ∨ v_write v = Some (v_i v + 3)))
           (mask_visits [0; 7]%Z [1; 2; 3; 4; 5; 6; 7; 8]%Z).2.
Proof.
  apply (mask_scan_exhaustive_in_bounds [0; 7]%Z [1; 2; 3; 4; 5; 6; 7; 8]%Z 2);
    [reflexivity | simpl; lia].
Defined.

End MaskClaims.

(** ** The publisher: invariants of the transition system *)

Module PublisherFacts.
Import Dom Publisher PublisherView.

Lemma Inv_created : Inv created.
Proof. split; simpl; auto with lia. by intros [?|?]. Qed.

(** Case analysis on an enabled step: which event, which stretch of code,
    which branch. *)
Ltac unfold_handlers :=
  unfold mounted_call, initCanvasPublisher_devices, initCanvasPublisher_stream,
    initCanvasPublisher_playing, startCanvasRendering_call,
    startCanvasRendering_resume, renderCanvas_call, renderCanvas_resume, stop
    in *.

Ltac break_match :=
  repeat match goal with
         | H : context [match ?x with _ => _ end] |- _ =>
             destruct x eqn:?; try discriminate H
         end.

Ltac step_inv H :=
  match type of H with
  | step _ ?st ?e = Some _ =>
      destruct e; cbn [step] in H; unfold_handlers; cbv zeta in H;
      break_match;
      simplify_eq; simpl in *
  end.

Lemma step_Inv env st e st' obs :
  Inv st → step env st e = Some (st', obs) → Inv st'.
Proof.
  intros [Hs Hi Hm Hsrc] H. step_inv H; split; simpl.
  all: try (intros _; eauto; apply Hsrc; auto; fail).
  all: destruct (render st) eqn:Hr; destruct (init st) eqn:Hin.
  all: try (destruct Hi as (? & ? & ?); [congruence|]).
  all: try (destruct Hm as (? & ?); [congruence|]).
  all: simplify_eq; simpl in *; rewrite ?length_app in *; simpl in *.
  all: try lia; intros; try congruence.
  all: repeat match goal with
              | Ht : timers _ = _ |- _ => rewrite Ht in *; clear Ht
              end; simpl in *.
  all: try (repeat split; try congruence; lia).
  all: try match goal with
           | Hd : _ = _ ∨ _ = _ |- _ => destruct Hd; try discriminate
           end.
  all: try (apply Hsrc; auto; fail); eauto.
  all: destruct Hsrc as [? ?]; [auto|discriminate].
Qed.

Lemma run_Inv env es : ∀ st st' obs,
  Inv st → run env st es = Some (st', obs) → Inv st'.
Proof.
  induction es as [|e es IH]; intros st st' obs HI H; simpl in H.
  - by simplify_eq.
  - destruct (step env st e) as [[st1 obs1]|] eqn:Hstep; [|done].
    destruct (run env st1 es) as [[st2 obs2]|] eqn:Hrun; [|done].
    simplify_eq. eauto using step_Inv.
Qed.

Lemma run_app env es1 : ∀ es2 st,
  run env st (es1 ++ es2) =
    match run env st es1 with
    | None => None
    | Some (st1, obs1) =>
        match run env st1 es2 with
        | None => None
        | Some (st2, obs2) => Some (st2, obs1 ++ obs2)
        end
    end.
Proof.
  induction es1 as [|e es1 IH]; intros es2 st; simpl.
  - destruct (run env st es2) as [[st2 obs2]|]; done.
  - destruct (step env st e) as [[st1 obs1]|]; [|done].
    rewrite IH. destruct (run env st1 es1) as [[st2 obs2]|]; [|done].
    destruct (run env st2 es2) as [[st3 obs3]|]; [|done].
    by rewrite app_assoc.
Qed.

(** Every timer the component sets has the delay 30. *)
Lemma step_delay env st e st' obs :
  step env st e = Some (st', obs) →
  Forall (λ o, ∀ d, o = CallWorkerSetTimeout d → d = render_delay) obs.
Proof.
  intros H. step_inv H.
  all: repeat first [apply Forall_nil_2 | apply Forall_cons_2 | apply Forall_app_2].
  all: try (apply Forall_forall; intros o Ho%list_elem_of_fmap;
            destruct Ho as (? & -> & _)).
  all: intros d Hd; congruence.
Qed.

Lemma run_delay env es : ∀ st st' obs,
  run env st es = Some (st', obs) →
  Forall (λ o, ∀ d, o = CallWorkerSetTimeout d → d = render_delay) obs.
Proof.
  induction es as [|e es IH]; intros st st' obs H; simpl in H.
  - simplify_eq. constructor.
  - destruct (step env st e) as [[st1 obs1]|] eqn:Hstep; [|done].
    destruct (run env st1 es) as [[st2 obs2]|] eqn:Hrun; [|done].
    simplify_eq. apply Forall_app. eauto using step_delay.
Qed.

Lemma track_stops_set_no_timer (stream : MediaStream) :
  List.filter is_set_timeout
    (map (λ track, CallTrackStop (track_id track)) stream) = [].
Proof. induction stream; simpl; [done|assumption]. Qed.

(** With the flag cleared and the loop started, a step sets no timer, keeps
    the flag cleared, and the pending iterations only run out. *)
Lemma step_stopped env st e st' obs :
  Inv st → render st = Started → processCanvas st = false →
  step env st e = Some (st', obs) →
  processCanvas st' = false ∧ render st' = Started
  ∧ List.filter is_set_timeout obs = []
  ∧ (if is_iteration_end e then 1 else 0) + awaiting st' + length (timers st')
    ≤ awaiting st + length (timers st).
Proof.
  intros [Hs Hi Hm _] Hr Hp H.
  assert (init st = Mounted) as Hin.
  { destruct (init st) eqn:Hin; try done; destruct Hm as [? _]; congruence. }
  step_inv H; try congruence.
  all: split_and!; try done; try lia.
  all: try (rewrite List.filter_app; simpl; rewrite app_nil_r).
  all: apply track_stops_set_no_timer.
Qed.

Lemma run_stopped env es : ∀ st st' obs,
  Inv st → render st = Started → processCanvas st = false →
  run env st es = Some (st', obs) →
  processCanvas st' = false ∧ render st' = Started
  ∧ List.filter is_set_timeout obs = []
  ∧ length (List.filter is_iteration_end es) + awaiting st' + length (timers st')
    ≤ awaiting st + length (timers st).
Proof.
  induction es as [|e es IH]; intros st st' obs HI Hr Hp H; simpl in H.
  - simplify_eq. simpl. split_and!; auto with lia.
  - destruct (step env st e) as [[st1 obs1]|] eqn:Hstep; [|done].
    destruct (run env st1 es) as [[st2 obs2]|] eqn:Hrun; [|done].
    simplify_eq.
    destruct (step_stopped _ _ _ _ _ HI Hr Hp Hstep) as (Hp1 & Hr1 & Hf1 & Hn1).
    destruct (IH _ _ _ (step_Inv _ _ _ _ _ HI Hstep) Hr1 Hp1 Hrun)
      as (Hp2 & Hr2 & Hf2 & Hn2).
    split_and!; [done|done| |].
    + by rewrite List.filter_app, Hf1, Hf2.
    + simpl. destruct (is_iteration_end e); simpl in *; lia.
Qed.

(** [stop()] clears the flag and leaves the phases alone. *)
Lemma stop_flag st :
  processCanvas (stop st).1 = false ∧ render (stop st).1 = render st
  ∧ awaiting (stop st).1 = awaiting st ∧ timers (stop st).1 = timers st
  ∧ List.filter is_set_timeout (stop st).2 = [].
Proof.
  unfold stop. destruct (srcObject st) as [stream|]; simpl; split_and!; try done.
  - rewrite List.filter_app.
    rewrite track_stops_set_no_timer. by destruct (publisher st).
  - by destruct (publisher st).
Qed.

Lemma track_stops_of_stop (stream : MediaStream) :
  forallb of_stop (map (λ track, CallTrackStop (track_id track)) stream) = true.
Proof. induction stream; simpl; auto. Qed.

Lemma track_stops_off_output (stream : MediaStream) :
  List.filter on_output
    (map (λ track, CallTrackStop (track_id track)) stream) = [].
Proof. induction stream; simpl; auto. Qed.

(** A halted component stays halted: only [stop()] can still run, and it
    starts nothing. *)
Lemma step_halted env st e st' obs :
  halted st = true → step env st e = Some (st', obs) →
  e = StopCalled ∧ halted st' = true ∧ forallb of_stop obs = true
  ∧ init st' = init st ∧ render st' = render st ∧ publisher st' = publisher st.
Proof.
  unfold halted. intros Hh H.
  destruct (init st) eqn:Hin, (render st) eqn:Hr, (awaiting st) eqn:Ha,
    (timers st) eqn:Ht; try discriminate Hh.
  all: step_inv H; try congruence.
  all: rewrite ?Hin, ?Hr, ?Ha, ?Ht; split_and!; try done.
  all: apply track_stops_of_stop.
Qed.

Lemma run_halted env es : ∀ st st' obs,
  halted st = true → run env st es = Some (st', obs) →
  forallb is_stop es = true ∧ halted st' = true ∧ forallb of_stop obs = true
  ∧ init st' = init st ∧ render st' = render st ∧ publisher st' = publisher st.
Proof.
  induction es as [|e es IH]; intros st st' obs Hh H; simpl in H.
  - by simplify_eq.
  - destruct (step env st e) as [[st1 obs1]|] eqn:Hstep; [|done].
    destruct (run env st1 es) as [[st2 obs2]|] eqn:Hrun; [|done].
    simplify_eq.
    destruct (step_halted _ _ _ _ _ Hh Hstep) as (-> & Hh1 & Ho1 & Hi1 & Hr1 & Hp1).
    destruct (IH _ _ _ Hh1 Hrun) as (He2 & Hh2 & Ho2 & Hi2 & Hr2 & Hp2).
    rewrite forallb_app, Ho1, Ho2. simpl.
    split_and!; try done; congruence.
Qed.

(** The draws of one step on the output canvas: none, or the pair. *)
Lemma step_layered env st e st' obs :
  step env st e = Some (st', obs) →
  List.filter on_output obs = []
  ∨ ∃ img pixels w h,
      List.filter on_output obs =
        [CallDrawImage OutputCtx (ImageOf img) 0 0 w h;
         CallDrawImage OutputCtx (CanvasOf pixels) 0 0 w h].
Proof.
  intros H. step_inv H; eauto 10.
  all: left; apply track_stops_off_output.
Qed.

Lemma run_layered env es : ∀ st st' obs,
  run env st es = Some (st', obs) → layered (List.filter on_output obs) = true.
Proof.
  induction es as [|e es IH]; intros st st' obs H; simpl in H.
  - by simplify_eq.
  - destruct (step env st e) as [[st1 obs1]|] eqn:Hstep; [|done].
    destruct (run env st1 es) as [[st2 obs2]|] eqn:Hrun; [|done].
    simplify_eq. rewrite List.filter_app.
    destruct (step_layered _ _ _ _ _ Hstep) as [->|(img & px & w & h & ->)];
      simpl; eauto.
Qed.

(** What no method assigns, and what [mounted()] calls once. *)

Lemma Fixed_created : Fixed created.
Proof. split; simpl; done. Qed.

Lemma step_Fixed env st e st' obs :
  Fixed st → step env st e = Some (st', obs) → Fixed st'.
Proof.
  intros [Hq Hb Hp Ht] H. step_inv H; split; simpl; try done.
  all: try (intros; congruence).
  all: try (rewrite Forall_app; split; [done|by repeat constructor]).
  all: try exact Hp.
  all: try by apply Forall_cons in Ht as [_ ?].
  all: intros Hin; specialize (Hp Hin); congruence.
Qed.

Lemma run_Fixed env es : ∀ st st' obs,
  Fixed st → run env st es = Some (st', obs) → Fixed st'.
Proof.
  induction es as [|e es IH]; intros st st' obs HF H; simpl in H.
  - by simplify_eq.
  - destruct (step env st e) as [[st1 obs1]|] eqn:Hstep; [|done].
    destruct (run env st1 es) as [[st2 obs2]|] eqn:Hrun; [|done].
    simplify_eq. eauto using step_Fixed.
Qed.

Lemma count_call_app c obs1 obs2 :
  count_call c (obs1 ++ obs2) = count_call c obs1 + count_call c obs2.
Proof. unfold count_call. by rewrite List.filter_app, length_app. Qed.

Lemma count_call_track_stops c (stream : MediaStream) :
  count_call c (map (λ track, CallTrackStop (track_id track)) stream) = 0.
Proof.
  unfold count_call. induction stream; simpl; [done|]. by destruct c.
Qed.

Lemma count_call_stop c st : count_call c (stop st).2 = 0.
Proof.
  unfold stop. destruct (srcObject st); simpl; rewrite count_call_app.
  - rewrite count_call_track_stops. by destruct (publisher st), c.
  - by destruct (publisher st), c.
Qed.

Lemma Once_created : Once created [].
Proof. split; simpl; auto. Qed.

Ltac once_case Hu0 Hp0 Hmt Hl0 Hc0 :=
  split; simpl;
  [ | | | let c := fresh "c" in let Hc := fresh "Hc" in
          intros c Hc; rewrite count_call_app, (Hmt c Hc);
          destruct_or! Hc; subst c | | ];
  rewrite ?count_call_app; unfold count_call in *; simpl;
  rewrite ?Nat.add_0_r;
  repeat split; intros; destruct_or?; simplify_eq;
  try specialize (Hu0 ltac:(auto)); try specialize (Hp0 ltac:(auto));
  try specialize (Hl0 ltac:(auto)); try specialize (Hc0 ltac:(auto));
  try lia.

Lemma step_Once env st obs e st' obs' :
  Inv st → Once st obs → step env st e = Some (st', obs') →
  Once st' (obs ++ obs').
Proof.
  intros [_ Hi Hm _] [He [Hu1 Hu0] [Hp1 Hp0] Hmt [Hl1 Hl0] [Hc1 Hc0]] H.
  destruct e; cbn [step] in H;
    unfold mounted_call, initCanvasPublisher_devices,
      initCanvasPublisher_stream, initCanvasPublisher_playing,
      startCanvasRendering_call, startCanvasRendering_resume,
      renderCanvas_call, renderCanvas_resume in H.
  - (* MountedHook *)
    destruct (init st) eqn:Hin; try done. simplify_eq.
    destruct Hm as [Hr _]; [done|]. once_case Hu0 Hp0 Hmt Hl0 Hc0.
  - (* DevicesResolved *)
    destruct (init st) eqn:Hin; try done.
    destruct Hm as [Hr _]; [done|].
    destruct (find_videoinput devices); simplify_eq;
      once_case Hu0 Hp0 Hmt Hl0 Hc0.
  - (* UserMediaResolved *)
    destruct (init st) eqn:Hin; try done. simplify_eq.
    destruct Hm as [Hr _]; [done|]. once_case Hu0 Hp0 Hmt Hl0 Hc0.
  - (* UserMediaRejected *)
    destruct (init st) eqn:Hin; try done. simplify_eq.
    destruct Hm as [Hr _]; [done|]. once_case Hu0 Hp0 Hmt Hl0 Hc0.
  - (* Playing *)
    destruct (init st) eqn:Hin; try done.
    destruct Hm as [Hr _]; [done|].
    destruct (canvas2d env); simplify_eq; once_case Hu0 Hp0 Hmt Hl0 Hc0.
  - (* ModelLoaded *)
    destruct (render st) eqn:Hr; try done.
    destruct (clone2d env); simplify_eq; once_case Hu0 Hp0 Hmt Hl0 Hc0.
  - (* SegmentationResolved *)
    destruct (awaiting st) as [|n]; [done|].
    destruct (backgroundImage st), (processCanvas st); simplify_eq;
      once_case Hu0 Hp0 Hmt Hl0 Hc0.
  - (* SegmentationRejected *)
    destruct (awaiting st) as [|n]; [done|]. simplify_eq.
    once_case Hu0 Hp0 Hmt Hl0 Hc0.
  - (* TimerFired *)
    destruct (timers st) as [|d rest]; [done|]. simplify_eq.
    once_case Hu0 Hp0 Hmt Hl0 Hc0.
  - (* StopCalled *)
    simplify_eq.
    assert (Hstate : init (stop st).1 = init st
                     ∧ render (stop st).1 = render st)
      by (unfold stop; by destruct (srcObject st)).
    destruct Hstate as [Hin Hre]. rewrite H in Hin, Hre. simpl in Hin, Hre.
    assert (Hobs : ∀ c, count_call c obs' = 0)
      by (intros c; by rewrite <- (count_call_stop c st), H).
    split; rewrite ?Hin, ?Hre; intros; rewrite ?count_call_app,
      ?Hobs, ?Nat.add_0_r; auto.
Qed.

Lemma run_Once env es : ∀ st obs,
  run env created es = Some (st, obs) → Once st obs.
Proof.
  induction es as [|e es IH] using rev_ind; intros st obs H.
  - simpl in H. simplify_eq. apply Once_created.
  - rewrite run_app in H.
    destruct (run env created es) as [[st1 obs1]|] eqn:Hrun; [|done].
    simpl in H.
    destruct (step env st1 e) as [[st2 obs2]|] eqn:Hstep; [|done].
    simplify_eq. rewrite app_nil_r.
    eapply step_Once; [|by eapply IH|done].
    by eapply run_Inv; [apply Inv_created|].
Qed.

End PublisherFacts.

(** ** The publisher: the claims *)

Section PublisherClaims.
Import Dom Publisher PublisherView PublisherFacts.

(** C2, the code at the failing run. [stop()] is called after the video has
    started to play and while [startCanvasRendering] still awaits the model.
    [stop()] sets [processCanvas] to false and no timer has been set so far;
    when the model arrives line 127 sets the flag to true again and the loop
    starts: two iterations end after the [stop()], each sets its timer of
    30, and a timer is pending at the end. The claim says that after
    [stop()] the loop never reschedules and at most one iteration ends. *)
Lemma stop_during_model_load_keeps_rescheduling :
  (render ∘ fst <$> run Scenario.browser created Scenario.boot)
  = Some AwaitModel
  ∧ (processCanvas ∘ fst
       <$> run Scenario.browser created (Scenario.boot ++ [StopCalled]))
    = Some false
  ∧ (List.filter is_set_timeout ∘ snd
       <$> run Scenario.browser created (Scenario.boot ++ [StopCalled]))
    = Some []
  ∧ (processCanvas ∘ fst
       <$> run Scenario.browser created
             (Scenario.boot ++ StopCalled :: Scenario.late_model))
    = Some true
  ∧ (timers ∘ fst
       <$> run Scenario.browser created
             (Scenario.boot ++ StopCalled :: Scenario.late_model))
    = Some [render_delay]
  ∧ (List.filter is_set_timeout ∘ snd
       <$> run Scenario.browser created
             (Scenario.boot ++ StopCalled :: Scenario.late_model))
    = Some [CallWorkerSetTimeout render_delay;
            CallWorkerSetTimeout render_delay]
  ∧ length (List.filter is_iteration_end Scenario.late_model) = 2.
Proof. split_and!; vm_compute; reflexivity. Qed.

(** C5. In an iteration the masked frame is put back on the clone canvas,
    then the background image is drawn on the output canvas, then the clone
    canvas (the frame, transparent where it was masked) is drawn on the
    output canvas, with the same origin and size: the frame lies over the
    image. Nothing else draws on the output canvas, in any run: its draws
    are pairs of an image followed by a canvas. *)
Theorem background_then_masked_frame :
  (∀ seg frame st img, backgroundImage st = Some img →
     (renderCanvas_resume seg frame st).2 =
       [CallDrawImage CloneCtx LocalVideo 0 0
          (videoWidth (quality st)) (videoHeight (quality st));
        CallGetImageData CloneCtx 0 0
          (videoWidth (quality st)) (videoHeight (quality st));
        CallPutImageData CloneCtx (Mask.mask seg frame) 0 0;
        CallDrawImage OutputCtx (ImageOf img) 0 0
          (videoWidth (quality st)) (videoHeight (quality st));
        CallDrawImage OutputCtx (CanvasOf (Mask.mask seg frame)) 0 0
          (videoWidth (quality st)) (videoHeight (quality st))]
       ++ (if processCanvas st then [CallWorkerSetTimeout render_delay] else []))
  ∧ (∀ env es st st' obs, run env st es = Some (st', obs) →
       layered (List.filter on_output obs) = true).
Proof.
  split.
  - intros seg frame st img Hbg. unfold renderCanvas_resume. rewrite Hbg.
    by destruct (processCanvas st).
  - intros env es st st' obs. apply run_layered.
Qed.

Lemma background_then_masked_frame_witness :
  List.filter on_output
    (renderCanvas_resume Scenario.seg Scenario.frame created).2 =
    [CallDrawImage OutputCtx
       (ImageOf {| src := "~/assets/icons/mars_background.jpg" |}) 0 0 640 480;
     CallDrawImage OutputCtx
       (CanvasOf [10; 20; 30; 0; 40; 50; 60; 255]%Z) 0 0 640 480].
Proof.
  destruct background_then_masked_frame as [Hiter _].
  rewrite (Hiter Scenario.seg Scenario.frame created _ eq_refl).
  vm_compute. reflexivity.
Defined.

(** C4, the claim as stated fails. With no 2D context for the output canvas,
    [startCanvasRendering] throws, and [mounted()] still runs to its end: the
    publisher is created and published. *)
Lemma context_failure_does_not_abort_mounted :
  (snd <$> run Scenario.no_context created Scenario.boot) =
    Some [CallEnumerateDevices;
          CallGetUserMedia "cam0" 30 640 480;
          CallPlay;
          CallGetContext2d;
          Thrown "startCanvasRendering"
                 "Could not get canvas context to start canvas rendering";
          CallCaptureStream; CallInitPublisher; CallSessionPublish]
  ∧ (init ∘ fst <$> run Scenario.no_context created Scenario.boot) = Some Mounted
  ∧ (publisher ∘ fst <$> run Scenario.no_context created Scenario.boot)
    = Some true.
Proof. split_and!; vm_compute; reflexivity. Qed.

(** C4, amended. Each failure makes its function throw, and what that
    function would have started never runs; nothing is retried.
    - No video input device: [initCanvasPublisher] throws, [mounted()]
      rejects, no publisher is created.
    - No 2D context for the output canvas: [startCanvasRendering] throws
      and the loop never starts; the call is not awaited, so [mounted()]
      still creates and publishes the publisher.
    - No 2D context for the clone: [startCanvasRendering] throws after the
      model has loaded and the loop never starts; in every run that gets
      there [mounted()] has run to its end by then, [initPublisher] and
      [session.publish] have been called once, and the publisher stays.
    - No background image: [renderCanvas] throws before it draws on the
      output canvas and without setting a timer.
    In each case the component is left halted: only [stop()] can still run,
    and the rejected phase never changes. *)
Theorem init_fail_fast (env : Env) (st : State) :
  Inv st →
  (∀ devices, init st = AwaitDevices → find_videoinput devices = None →
     ∃ st', step env st (DevicesResolved devices) =
              Some (st', [Thrown "initCanvasPublisher" "Could not get video device"])
            ∧ init st' = MountRejected "Could not get video device"
            ∧ publisher st' = false ∧ halted st' = true)
  ∧ (init st = AwaitPlaying → canvas2d env = false →
     ∃ st', step env st Playing =
              Some (st', [CallGetContext2d;
                          Thrown "startCanvasRendering"
                            "Could not get canvas context to start canvas rendering";
                          CallCaptureStream; CallInitPublisher; CallSessionPublish])
            ∧ render st' =
                StartRejected "Could not get canvas context to start canvas rendering"
            ∧ processCanvas st' = false ∧ init st' = Mounted
            ∧ publisher st' = true ∧ halted st' = true)
  ∧ (render st = AwaitModel → clone2d env = false →
     ∃ st', step env st ModelLoaded =
              Some (st', [CallCloneNodeGetContext2d;
                          Thrown "startCanvasRendering"
                            "Unable to clone canvas context"])
            ∧ render st' = StartRejected "Unable to clone canvas context"
            ∧ processCanvas st' = false ∧ halted st' = true
            ∧ init st' = Mounted ∧ publisher st' = publisher st)
  ∧ (∀ seg frame, backgroundImage st = None → awaiting st ≠ 0 →
     ∃ st', step env st (SegmentationResolved seg frame) =
              Some (st', [CallDrawImage CloneCtx LocalVideo 0 0
                            (videoWidth (quality st)) (videoHeight (quality st));
                          CallGetImageData CloneCtx 0 0
                            (videoWidth (quality st)) (videoHeight (quality st));
                          CallPutImageData CloneCtx (Mask.mask seg frame) 0 0;
                          Thrown "renderCanvas" "Unable to get background image"])
            ∧ timers st' = [] ∧ halted st' = true)
  ∧ (∀ st1 es st2 obs, halted st1 = true → run env st1 es = Some (st2, obs) →
       forallb is_stop es = true ∧ forallb of_stop obs = true
       ∧ halted st2 = true ∧ init st2 = init st1 ∧ render st2 = render st1
       ∧ publisher st2 = publisher st1)
  ∧ (∀ es st0 obs0, run env created es = Some (st0, obs0) →
       render st0 = AwaitModel → clone2d env = false →
       ∃ st', step env st0 ModelLoaded =
                Some (st', [CallCloneNodeGetContext2d;
                            Thrown "startCanvasRendering"
                              "Unable to clone canvas context"])
              ∧ render st' = StartRejected "Unable to clone canvas context"
              ∧ processCanvas st' = false ∧ halted st' = true
              ∧ init st' = Mounted ∧ publisher st' = true
              ∧ count_call InitPublisher obs0 = 1
              ∧ count_call Publish obs0 = 1).
Proof.
  intros [Hs Hi Hm _]. split_and!.
  - intros devices Hin Hfind.
    destruct Hm as [Hr Hp]; [congruence|].
    destruct Hi as (Ha & Ht & _); [congruence|].
    eexists. cbn [step]. rewrite Hin.
    unfold initCanvasPublisher_devices. rewrite Hfind.
    split_and!; try done.
    unfold halted. simpl. by rewrite Hr, Ha, Ht.
  - intros Hin Hctx.
    destruct Hm as [Hr Hp]; [congruence|].
    destruct Hi as (Ha & Ht & Hf); [congruence|].
    eexists. cbn [step]. rewrite Hin.
    unfold initCanvasPublisher_playing, startCanvasRendering_call.
    rewrite Hctx. split_and!; try done.
    unfold halted. simpl. by rewrite Ha, Ht.
  - intros Hr Hclone.
    destruct Hi as (Ha & Ht & Hf); [congruence|].
    assert (init st = Mounted) as Hin.
    { destruct (init st) eqn:Hin; try done; destruct Hm as [? _]; congruence. }
    eexists. cbn [step]. rewrite Hr.
    unfold startCanvasRendering_resume. rewrite Hclone.
    split_and!; try done.
    unfold halted. simpl. by rewrite Hin, Ha, Ht.
  - intros seg frame Hbg Ha.
    assert (render st = Started) as Hr.
    { destruct (render st) eqn:Hr; try done; destruct Hi as (? & _); congruence. }
    assert (init st = Mounted) as Hin.
    { destruct (init st) eqn:Hin; try done; destruct Hm as [? _]; congruence. }
    destruct (awaiting st) as [|n] eqn:Hn; [done|].
    assert (n = 0 ∧ timers st = []) as [-> Ht].
    { destruct (timers st); simpl in Hs; split; try done; lia. }
    eexists. cbn [step]. rewrite Hn.
    unfold renderCanvas_resume. rewrite Hbg, Hn. simpl.
    split_and!; try done.
    unfold halted. simpl. by rewrite Hin, Hr, Ht.
  - intros st1 es st2 obs Hh Hrun.
    destruct (run_halted _ _ _ _ _ Hh Hrun) as (? & ? & ? & ? & ? & ?).
    done.
  - intros es st0 obs0 Hrun Hr Hclone.
    destruct (run_Inv _ _ _ _ _ Inv_created Hrun) as [_ Hi0 Hm0 _].
    destruct (run_Fixed _ _ _ _ _ Fixed_created Hrun) as [_ _ Hp0 _].
    destruct (run_Once _ _ _ _ Hrun) as [_ _ _ Hc0 _ _].
    destruct Hi0 as (Ha & Ht & Hf); [congruence|].
    assert (init st0 = Mounted) as Hin.
    { destruct (init st0) eqn:Hin; try done;
        destruct Hm0 as [? _]; congruence. }
    eexists. cbn [step]. rewrite Hr.
    unfold startCanvasRendering_resume. rewrite Hclone.
    split_and!; try done.
    + unfold halted. simpl. by rewrite Hin, Ha, Ht.
    + simpl. by apply Hp0.
    + rewrite Hc0 by auto. by rewrite Hin.
    + rewrite Hc0 by auto. by rewrite Hin.
Qed.

Lemma init_fail_fast_witness :
  (∃ st', step Scenario.no_context Scenario.playing Playing =
            Some (st', [CallGetContext2d;
                        Thrown "startCanvasRendering"
                          "Could not get canvas context to start canvas rendering";
                        CallCaptureStream; CallInitPublisher; CallSessionPublish])
          ∧ render st' =
              StartRejected "Could not get canvas context to start canvas rendering"
          ∧ processCanvas st' = false ∧ init st' = Mounted
          ∧ publisher st' = true ∧ halted st' = true)
  ∧ (∃ st0 obs0 st',
       run Scenario.no_clone created Scenario.boot = Some (st0, obs0)
       ∧ step Scenario.no_clone st0 ModelLoaded =
           Some (st', [CallCloneNodeGetContext2d;
                       Thrown "startCanvasRendering"
                         "Unable to clone canvas context"])
       ∧ init st' = Mounted ∧ publisher st' = true
       ∧ count_call Publish obs0 = 1).
Proof.
  assert (Inv Scenario.playing) as HI.
  { split; simpl; [lia|tauto|tauto|eauto]. }
  split.
  - destruct (init_fail_fast Scenario.no_context Scenario.playing HI)
      as (_ & Hctx & _).
    apply Hctx; reflexivity.
  - assert (Hrun : run Scenario.no_clone created Scenario.boot = Some (_, _))
      by (vm_compute; reflexivity).
    destruct (init_fail_fast Scenario.no_clone Scenario.playing HI)
      as (_ & _ & _ & _ & _ & Hclone).
    destruct (Hclone _ _ _ Hrun eq_refl eq_refl)
      as (st' & Hstep & _ & _ & _ & Hin & Hpub & _ & Hcount).
    eexists _, _, st'. split; [exact Hrun|]. split; [exact Hstep|].
    split; [exact Hin|]. split; [exact Hpub|exact Hcount].
Defined.

End PublisherClaims.

(** ** The index page *)

Module IndexFacts.
Import Index.

(** [start()] calls [connect] at most once and never assigns [session]. *)
Lemma start_session env st :
  session (start env st).1 = session st
  ∧ length (List.filter is_connect (start env st).2) ≤ 1.
Proof.
  unfold start.
  destruct (truthy (API_KEY env)), (truthy (SESSION_ID env)),
    (truthy (OT_TOKEN env)); simpl; auto.
Qed.

(** A step that is not a successful connect leaves [session] as it is,
    calls [connect] only if it is a click on Start, and alerts exactly when
    it is a failed connect. *)
Lemma step_failure env st e st' obs :
  is_failure e = true → step env st e = Some (st', obs) →
  session st' = session st
  ∧ length (List.filter is_connect obs) ≤ (if is_start e then 1 else 0)
  ∧ List.filter is_alert obs =
      map (λ err, CallAlert ("Could not connect session: " ++ err)%string)
          (failures [e]).
Proof.
  intros Hf H. destruct e as [|[err|]]; simpl in *; try discriminate Hf.
  - simplify_eq. destruct (start_session env st) as [Hs Hc].
    rewrite H in Hs, Hc. split_and!; [done|done|].
    unfold start in H.
    destruct (truthy (API_KEY env)), (truthy (SESSION_ID env)),
      (truthy (OT_TOKEN env)); by simplify_eq.
  - destruct (connecting st) as [|s rest]; [done|]. simplify_eq. simpl.
    split_and!; [done|lia|done].
Qed.

Lemma failures_cons e es : failures (e :: es) = failures [e] ++ failures es.
Proof. by destruct e as [|[err|]]. Qed.

Lemma run_failures env es : ∀ st st' obs,
  forallb is_failure es = true → run env st es = Some (st', obs) →
  session st' = session st
  ∧ length (List.filter is_connect obs) ≤ length (List.filter is_start es)
  ∧ List.filter is_alert obs =
      map (λ err, CallAlert ("Could not connect session: " ++ err)%string)
          (failures es).
Proof.
  induction es as [|e es IH]; intros st st' obs Hf H; cbn [run forallb] in *.
  - by simplify_eq.
  - apply andb_prop in Hf as [Hf1 Hf2].
    destruct (step env st e) as [[st1 obs1]|] eqn:Hstep; [|done].
    destruct (run env st1 es) as [[st2 obs2]|] eqn:Hrun; [|done].
    simplify_eq.
    destruct (step_failure _ _ _ _ _ Hf1 Hstep) as (Hs1 & Hc1 & Ha1).
    destruct (IH _ _ _ Hf2 Hrun) as (Hs2 & Hc2 & Ha2).
    split_and!; [congruence| |].
    + rewrite List.filter_app, length_app. cbn [List.filter].
      destruct (is_start e); simpl in *; lia.
    + by rewrite List.filter_app, Ha1, Ha2, (failures_cons e es), List.map_app.
Qed.

End IndexFacts.

Section IndexClaims.
Import Index IndexFacts.

(** C8. When [session.connect] fails, its callback shows the alert
    'Could not connect session: ' followed by the error, throws nothing and
    leaves the page as it was: [session] is assigned in the other branch
    only. So in a run from the initial page in which no connect succeeds,
    [session] is still null, the CanvasPublisher is not rendered, every
    failure was alerted, and [connect] was called at most once per click on
    Start: no retry. *)
Theorem connect_failure_alerts :
  (∀ s err st,
     connect_callback s (Some err) st =
       (st, [CallAlert ("Could not connect session: " ++ err)%string]))
  ∧ (∀ s st, session (connect_callback s None st).1 = Some s)
  ∧ (∀ env es st obs,
       forallb is_failure es = true → run env initial es = Some (st, obs) →
       session st = None ∧ shows_CanvasPublisher st = false
       ∧ length (List.filter is_connect obs) ≤ length (List.filter is_start es)
       ∧ List.filter is_alert obs =
           map (λ err, CallAlert ("Could not connect session: " ++ err)%string)
               (failures es)).
Proof.
  split_and!; [done|done|].
  intros env es st obs Hf Hrun.
  destruct (run_failures _ _ _ _ _ Hf Hrun) as (Hs & Hc & Ha).
  unfold shows_CanvasPublisher. rewrite Hs. done.
Qed.

Lemma connect_failure_alerts_witness :
  ∃ st obs,
    run Scenario.tokens initial [StartClicked; ConnectCompleted (Some "denied")]
      = Some (st, obs)
    ∧ session st = None ∧ shows_CanvasPublisher st = false
    ∧ List.filter is_alert obs
      = [CallAlert "Could not connect session: denied"].
Proof.
  eexists _, _.
  match goal with
  | |- ?A ∧ _ => assert (Hrun : A) by (vm_compute; reflexivity)
  end.
  destruct connect_failure_alerts as (_ & _ & Hruns).
  destruct (Hruns Scenario.tokens
              [StartClicked; ConnectCompleted (Some "denied")] _ _ eq_refl Hrun)
    as (Hs & Hshow & _ & Halert).
  split; [exact Hrun|]. split; [exact Hs|]. split; [exact Hshow|exact Halert].
Defined.

End IndexClaims.

(** ** The recorder page: the camera and the drawing loop *)

Module RecorderFacts.
Import Dom Recorder.

(** With a 2D context, the 'play' event sets one timer per listener. *)
Lemma play_event_timers n : ∀ st,
  timers (play_event true n st).1 = timers st ++ replicate n frame_delay
  ∧ set_timeouts (play_event true n st).2 = replicate n frame_delay
  ∧ mediaStreamStatus (play_event true n st).1 = mediaStreamStatus st
  ∧ srcObject (play_event true n st).1 = srcObject st.
Proof.
  induction n as [|n IH]; intros st; simpl.
  - by rewrite app_nil_r.
  - specialize (IH (set_timers (timers st ++ [frame_delay]) st)).
    destruct (play_event true n (set_timers (timers st ++ [frame_delay]) st))
      as [st2 obs2]. simpl in *.
    destruct IH as (-> & -> & -> & ->). by rewrite <- app_assoc.
Qed.

Lemma track_stops_set_no_timeout (stream : MediaStream) :
  set_timeouts (map (λ track, CallTrackStop (track_id track)) stream) = [].
Proof. induction stream; simpl; auto. Qed.

(** With a 2D context, a step never takes a timer away without setting a new
    one, and every timer has the delay 1000 / 30. *)
Lemma step_timers st e st' obs :
  step true st e = Some (st', obs) →
  length (timers st) ≤ length (timers st')
  ∧ (if is_timer_fired e then 1 else 0) ≤ length (set_timeouts obs)
  ∧ Forall (λ d, d = frame_delay) (set_timeouts obs).
Proof.
  intros H. destruct e; cbn [step] in H;
    unfold toggleMediaStream, stopMediaStream, initMediaStream_call,
      initMediaStream_devices, initMediaStream_stream, renderCanvas in H.
  - simplify_eq. simpl. auto.
  - destruct (mediaStreamStatus st), (srcObject st); simplify_eq; simpl;
      rewrite ?track_stops_set_no_timeout; auto.
  - destruct (awaiting_devices st); [done|].
    destruct (find_videoinput devices); simplify_eq; simpl; auto.
  - destruct (awaiting_stream st); [done|]. simplify_eq. simpl. auto.
  - destruct (awaiting_stream st); [done|]. simplify_eq. simpl. auto.
  - simplify_eq.
    pose proof (play_event_timers (play_listeners st) st) as Hplay.
    rewrite H in Hplay. simpl in Hplay. destruct Hplay as (-> & -> & _).
    rewrite length_app. split_and!; [lia|simpl; lia|].
    apply Forall_forall. by intros d [-> _]%elem_of_replicate.
  - destruct (timers st) as [|d rest]; [done|]. simplify_eq. simpl.
    rewrite length_app. simpl. split_and!; [lia|lia|].
    by repeat constructor.
Qed.

Lemma run_timers es : ∀ st st' obs,
  run true st es = Some (st', obs) →
  length (timers st) ≤ length (timers st')
  ∧ length (List.filter is_timer_fired es) ≤ length (set_timeouts obs)
  ∧ Forall (λ d, d = frame_delay) (set_timeouts obs).
Proof.
  induction es as [|e es IH]; intros st st' obs H; simpl in H.
  - simplify_eq. simpl. auto.
  - destruct (step true st e) as [[st1 obs1]|] eqn:Hstep; [|done].
    destruct (run true st1 es) as [[st2 obs2]|] eqn:Hrun; [|done].
    simplify_eq.
    destruct (step_timers _ _ _ _ Hstep) as (Hl1 & Hc1 & Hd1).
    destruct (IH _ _ _ Hrun) as (Hl2 & Hc2 & Hd2).
    unfold set_timeouts in *. rewrite omap_app, length_app.
    split_and!; [lia| |by apply Forall_app].
    cbn [List.filter]. destruct (is_timer_fired e); simpl in *; lia.
Qed.

End RecorderFacts.

Section RecorderClaims.
Import Dom Recorder RecorderFacts.

(** C9. The drawing loop of the recorder page has no stop condition. Given
    the 2D context of the output canvas, every call of [renderCanvas] draws
    and sets a worker timer of 1000 / 30 ms for itself, whatever the fields
    of the page are: it reads no flag. So in every run the timers that are
    pending never get fewer, every timer that fires sets the next one, and
    this goes on after [stopMediaStream] has stopped the tracks. *)
Theorem recorder_loop_has_no_stop_condition :
  (∀ st, renderCanvas true st =
     (set_timers (timers st ++ [frame_delay]) st,
      [CallGetContext2d;
       CallDrawImageVideo 0 0 (videoWidth (quality st)) (videoHeight (quality st));
       CallWorkerSetTimeout frame_delay]))
  ∧ frame_delay = (1000 # 30)%Q
  ∧ (∀ es st st' obs, run true st es = Some (st', obs) →
       length (timers st) ≤ length (timers st')
       ∧ length (List.filter is_timer_fired es) ≤ length (set_timeouts obs)
       ∧ Forall (λ d, d = frame_delay) (set_timeouts obs))
  ∧ (∀ st stream d rest,
       mediaStreamStatus st = started → srcObject st = Some stream →
       timers st = d :: rest →
       ∃ st', run true st [ToggleClicked; TimerFired] =
                Some (st', map (λ track, CallTrackStop (track_id track)) stream
                           ++ [CallGetContext2d;
                               CallDrawImageVideo 0 0 (videoWidth (quality st))
                                 (videoHeight (quality st));
                               CallWorkerSetTimeout frame_delay])
              ∧ mediaStreamStatus st' = stopped
              ∧ srcObject st' = Some (map track_stop stream)
              ∧ timers st' = rest ++ [frame_delay]).
Proof.
  split_and!; [done|done|apply run_timers|].
  intros st stream d rest Hstatus Hsrc Htimers.
  eexists. cbn [run step]. unfold toggleMediaStream, stopMediaStream.
  rewrite Hstatus, Hsrc. simpl. rewrite Htimers. simpl.
  split_and!; done.
Qed.

Lemma recorder_loop_has_no_stop_condition_witness :
  ∃ st', run true Scenario.filming [ToggleClicked; TimerFired] =
           Some (st', [CallTrackStop 0; CallTrackStop 1; CallGetContext2d;
                       CallDrawImageVideo 0 0 640 480;
                       CallWorkerSetTimeout frame_delay])
         ∧ mediaStreamStatus st' = stopped
         ∧ srcObject st' = Some (map track_stop Scenario.stream)
         ∧ timers st' = [frame_delay].
Proof.
  destruct recorder_loop_has_no_stop_condition as (_ & _ & _ & Hafter).
  exact (Hafter Scenario.filming Scenario.stream frame_delay []
           eq_refl eq_refl eq_refl).
Defined.

(** C7. Stopping releases the camera. [stop()] of the publisher clears the
    loop flag and calls [stop()] on every track of the stream of the local
    video, in order; [stopMediaStream()] of the recorder page does the same
    and sets the status to stopped, and throws, changing nothing, when the
    video has no stream. Afterwards every track of the stream is ended.
    Once [mounted()] of the publisher has run to its end the video has its
    stream, so [stop()] then finds the tracks to stop. *)
Theorem stop_releases_every_track :
  (∀ st stream, Publisher.srcObject st = Some stream →
     Publisher.stop st =
       (Publisher.set_srcObject (Some (map track_stop stream))
          (Publisher.set_processCanvas false st),
        (if Publisher.publisher st then [Publisher.CallPublisherDestroy] else [])
        ++ map (λ track, Publisher.CallTrackStop (track_id track)) stream))
  ∧ (∀ st stream, srcObject st = Some stream →
       stopMediaStream st =
         (set_mediaStreamStatus stopped
            (set_srcObject (Some (map track_stop stream)) st),
          map (λ track, CallTrackStop (track_id track)) stream))
  ∧ (∀ st, srcObject st = None →
       stopMediaStream st =
         (st, [Thrown "stopMediaStream" "Could not get local stream to stop"]))
  ∧ (∀ stream : MediaStream,
       Forall (λ track, readyState track = ended) (map track_stop stream)
       ∧ map track_id (map track_stop stream) = map track_id stream)
  ∧ (∀ env es st obs,
       Publisher.run env Publisher.created es = Some (st, obs) →
       Publisher.init st = Publisher.Mounted →
       ∃ stream, Publisher.srcObject st = Some stream
                 ∧ Publisher.srcObject (Publisher.stop st).1
                   = Some (map track_stop stream)).
Proof.
  split_and!.
  - intros st stream H. unfold Publisher.stop. by rewrite H.
  - intros st stream H. unfold stopMediaStream. by rewrite H.
  - intros st H. unfold stopMediaStream. by rewrite H.
  - intros stream. split.
    + apply Forall_forall. intros t Ht%list_elem_of_fmap.
      by destruct Ht as (? & -> & _).
    + rewrite map_map. by apply map_ext.
  - intros env es st obs Hrun Hinit.
    pose proof (PublisherFacts.run_Inv _ _ _ _ _ PublisherFacts.Inv_created Hrun)
      as [_ _ _ Hsrc].
    destruct Hsrc as [stream Hstream]; [by right|].
    exists stream. split; [done|]. unfold Publisher.stop. by rewrite Hstream.
Qed.

Lemma stop_releases_every_track_witness :
  stopMediaStream Scenario.filming =
    (set_mediaStreamStatus stopped
       (set_srcObject
          (Some [{| track_id := 0; readyState := ended |};
                 {| track_id := 1; readyState := ended |}]) Scenario.filming),
     [CallTrackStop 0; CallTrackStop 1]).
Proof.
  destruct stop_releases_every_track as (_ & Hstop & _).
  exact (Hstop Scenario.filming Scenario.stream eq_refl).
Defined.

End RecorderClaims.

(** ** The recorder page: the recordings *)

Module RecordingFacts.
Import Recording.

Lemma run_snoc es : ∀ st e,
  run st (es ++ [e]) =
    match run st es with
    | None => None
    | Some (st1, obs1) =>
        match step st1 e with
        | None => None
        | Some (st2, obs2) => Some (st2, obs1 ++ obs2)
        end
    end.
Proof.
  induction es as [|e' es IH]; intros st e; simpl.
  - destruct (step st e) as [[st2 obs2]|]; [|done]. by rewrite app_nil_r.
  - destruct (step st e') as [[st1 obs1]|]; [|done].
    rewrite IH. destruct (run st1 es) as [[st2 obs2]|]; [|done].
    destruct (step st2 e) as [[st3 obs3]|]; [|done].
    by rewrite app_assoc.
Qed.

Lemma settle_calls k c st :
  calls (settle k c st).1 =
    <[k := {| data := data c; stopped_p := stopped_p c;
              recorded_p := recorded_p c; timeout_set := timeout_set c;
              returned := settled c |}]> (calls st).
Proof.
  unfold settle, settled, startRecording_resume.
  destruct c as [d s r t ret]; simpl.
  destruct ret, s, r; simpl; done.
Qed.

Lemma settle_status k c st :
  recordingStatus (settle k c st).1 = stopped →
  recordingStatus st = stopped ∨ settled c = Resolved.
Proof.
  unfold settle, settled, startRecording_resume.
  destruct c as [d s r t ret]; simpl.
  destruct ret, s, r; simpl; auto.
Qed.

Lemma settle_no_stop k c st j : CallRecorderStop j ∉ (settle k c st).2.
Proof.
  unfold settle, startRecording_resume.
  destruct (returned c), (stopped_p c), (recorded_p c); simpl;
    rewrite ?elem_of_cons, ?elem_of_nil; intros Hin; decompose [or] Hin;
    done.
Qed.

Lemma call_ok_mono es e k c : call_ok es k c → call_ok (es ++ [e]) k c.
Proof.
  intros (H1 & H2 & H3 & H4). split_and!; try done.
  - intros H. apply elem_of_app. auto.
  - intros H. apply elem_of_app. auto.
Qed.

(** Replacing record [k] by one that is fine keeps the page fine. *)
Lemma page_ok_insert es e st st' k c' :
  page_ok es st →
  calls st' = <[k := c']> (calls st) →
  k < length (calls st) →
  call_ok (es ++ [e]) k c' →
  (recordingStatus st' = stopped →
   recordingStatus st = stopped ∨ returned c' = Resolved) →
  (∀ c, calls st !! k = Some c → returned c = Resolved → returned c' = Resolved) →
  page_ok (es ++ [e]) st'.
Proof.
  intros [Hcalls Hstatus] Heq Hk Hc' Hst Hret. split.
  - intros j c Hj. rewrite Heq in Hj.
    destruct (decide (k = j)) as [->|Hne].
    + rewrite list_lookup_insert_eq in Hj by done. by simplify_eq.
    + rewrite list_lookup_insert_ne in Hj by done.
      apply call_ok_mono. eauto.
  - intros Hs. destruct (Hst Hs) as [Hold|Hnew].
    + destruct (Hstatus Hold) as (j & c & Hj & Hr).
      destruct (decide (k = j)) as [->|Hne].
      * exists j, c'. rewrite Heq, list_lookup_insert_eq by done. eauto.
      * exists j, c. rewrite Heq, list_lookup_insert_ne by done. eauto.
    + exists k, c'. rewrite Heq, list_lookup_insert_eq by done. eauto.
Qed.

Lemma step_page_ok es st e st' obs :
  page_ok es st → step st e = Some (st', obs) → page_ok (es ++ [e]) st'.
Proof.
  intros Hok H. pose proof Hok as [Hcalls Hstatus].
  destruct e as [|k chunk|k|k name|k]; cbn [step] in H.
  - (* RecordClicked *)
    unfold startRecording_call in H. simplify_eq. split; simpl.
    + intros j c Hj. apply lookup_app_Some in Hj as [Hj|[Hlen Hj]].
      * apply call_ok_mono. eauto.
      * apply list_lookup_singleton_Some in Hj as [_ <-].
        split_and!; simpl; done.
    + done.
  - (* DataAvailable *)
    destruct (calls st !! k) as [c|] eqn:Hk; [|done]. simpl in H. simplify_eq.
    pose proof (Hcalls k c Hk) as (H1 & H2 & H3 & H4).
    eapply page_ok_insert;
      [done|done|by eapply lookup_lt_Some| |by simpl; auto|].
    + split_and!; simpl; try done; intros; apply elem_of_app; auto.
    + intros c0 Hc0 Hr. by simplify_eq.
  - (* StopFired *)
    destruct (calls st !! k) as [c|] eqn:Hk; [|done]. simpl in H. simplify_eq.
    pose proof (Hcalls k c Hk) as (H1 & H2 & H3 & H4).
    pose proof (settle_calls k (onstop c) st) as Hc.
    pose proof (settle_status k (onstop c) st) as Hs.
    rewrite H in Hc, Hs. simpl in Hc, Hs.
    eapply page_ok_insert; [done|exact Hc|by eapply lookup_lt_Some| | |].
    + unfold settled; split_and!; simpl.
      * intros; apply elem_of_app; auto.
      * done.
      * intros _. apply elem_of_app. right. by apply list_elem_of_singleton.
      * destruct (returned c), (stopped_p c), (recorded_p c); simpl;
          intros; try done; intuition congruence.
    + simpl. tauto.
    + intros c0 Hc0 Hr. simplify_eq. unfold settled. simpl. by rewrite Hr.
  - (* ErrorFired *)
    destruct (calls st !! k) as [c|] eqn:Hk; [|done]. simpl in H. simplify_eq.
    pose proof (Hcalls k c Hk) as (H1 & H2 & H3 & H4).
    pose proof (settle_calls k (onerror name c) st) as Hc.
    pose proof (settle_status k (onerror name c) st) as Hs.
    rewrite H in Hc, Hs. simpl in Hc, Hs.
    eapply page_ok_insert; [done|exact Hc|by eapply lookup_lt_Some| | |].
    + unfold settled; split_and!; simpl.
      * intros; apply elem_of_app; auto.
      * done.
      * destruct (stopped_p c); simpl; intros; try done.
        apply elem_of_app; auto.
      * destruct (returned c), (stopped_p c), (recorded_p c); simpl;
          intros; try done; intuition congruence.
    + simpl. tauto.
    + intros c0 Hc0 Hr. simplify_eq. unfold settled. simpl. by rewrite Hr.
  - (* TimeoutFired *)
    destruct (calls st !! k) as [c|] eqn:Hk; [|done]. simpl in H.
    destruct (timeout_set c) eqn:Hset; [|done].
    destruct (settle k (ontimeout c) st) as [st1 obs1] eqn:Hsettle.
    simplify_eq.
    pose proof (Hcalls k c Hk) as (H1 & H2 & H3 & H4).
    pose proof (settle_calls k (ontimeout c) st) as Hc.
    pose proof (settle_status k (ontimeout c) st) as Hs.
    rewrite Hsettle in Hc, Hs. simpl in Hc, Hs.
    eapply page_ok_insert; [done|exact Hc|by eapply lookup_lt_Some| | |].
    + unfold settled; split_and!; simpl.
      * intros _. apply elem_of_app. right. by apply list_elem_of_singleton.
      * done.
      * intros; apply elem_of_app; auto.
      * destruct (returned c), (stopped_p c), (recorded_p c); simpl;
          intros; try done; intuition congruence.
    + simpl. tauto.
    + intros c0 Hc0 Hr. simplify_eq. unfold settled. simpl. by rewrite Hr.
Qed.

Lemma page_ok_mounted : page_ok [] mounted_state.
Proof. split; [intros k c H; simpl in H; by rewrite lookup_nil in H | done]. Qed.

Lemma run_page_ok es : ∀ st obs,
  run mounted_state es = Some (st, obs) → page_ok es st.
Proof.
  induction es as [|e es IH] using rev_ind; intros st obs H.
  - simpl in H. simplify_eq. apply page_ok_mounted.
  - rewrite run_snoc in H.
    destruct (run mounted_state es) as [[st1 obs1]|]; [|done].
    destruct (step st1 e) as [[st2 obs2]|] eqn:Hstep; [|done].
    simplify_eq. eauto using step_page_ok.
Qed.

(** [recorder.stop()] is called by the callback of the timeout, and by
    nothing else. *)
Lemma step_recorder_stop st e st' obs k :
  step st e = Some (st', obs) → CallRecorderStop k ∈ obs ↔ e = TimeoutFired k.
Proof.
  intros H. destruct e as [|j chunk|j|j name|j]; cbn [step] in H.
  - unfold startRecording_call in H. simplify_eq.
    rewrite !elem_of_cons, elem_of_nil.
    split; [intros Hin; decompose [or] Hin; done | done].
  - destruct (calls st !! j); [|done]. simpl in H. simplify_eq.
    rewrite elem_of_nil. split; done.
  - destruct (calls st !! j) as [c|]; [|done]. simpl in H. simplify_eq.
    pose proof (settle_no_stop j (onstop c) st k) as Hno.
    rewrite H in Hno. split; done.
  - destruct (calls st !! j) as [c|]; [|done]. simpl in H. simplify_eq.
    pose proof (settle_no_stop j (onerror name c) st k) as Hno.
    rewrite H in Hno. split; done.
  - destruct (calls st !! j) as [c|]; [|done]. simpl in H.
    destruct (timeout_set c); [|done].
    pose proof (settle_no_stop j (ontimeout c) st k) as Hno.
    destruct (settle j (ontimeout c) st) as [st1 obs1]. simplify_eq.
    rewrite elem_of_cons. simpl in Hno.
    split; [intros [Heq|Hin]; [by simplify_eq|done] | intros Heq; left; by simplify_eq].
Qed.

Lemma run_recorder_stop es : ∀ st st' obs k,
  run st es = Some (st', obs) → CallRecorderStop k ∈ obs ↔ TimeoutFired k ∈ es.
Proof.
  induction es as [|e es IH]; intros st st' obs k H; simpl in H.
  - simplify_eq. by rewrite !elem_of_nil.
  - destruct (step st e) as [[st1 obs1]|] eqn:Hstep; [|done].
    destruct (run st1 es) as [[st2 obs2]|] eqn:Hrun; [|done].
    simplify_eq. rewrite elem_of_app, elem_of_cons.
    rewrite (step_recorder_stop _ _ _ _ k Hstep), (IH _ _ _ k Hrun).
    split; (intros [Heq|Hin]; [left; by simplify_eq|by right]).
Qed.

End RecordingFacts.

Section RecordingClaims.
Import Recording RecordingFacts.

(** C10. [startRecording()] sets the status to started, starts a recorder
    and sets one timeout of 30000 ms whose callback stops that recorder;
    nothing else calls [recorder.stop()]. The status becomes stopped only in
    the step in which the second of the two has happened, the timeout and
    the recorder's stop event: a call has returned only if both are among
    the events so far. In that step [downloadButton.href] (and
    [recordingVideo.src]) become the object URL of a Blob of type
    'video/webm' made of all the chunks buffered so far, in order, and
    [downloadButton.download] becomes 'RecordedVideo.webm'. *)
Theorem recording_stops_after_timeout :
  (∀ st, startRecording_call st =
     ({| recordingStatus := started;
         calls := calls st ++ [{| data := []; stopped_p := Pending;
                                  recorded_p := Pending; timeout_set := true;
                                  returned := Pending |}];
         recordingVideo_src := recordingVideo_src st;
         download_href := download_href st;
         download_name := download_name st |},
      [CallCaptureStream; CallNewMediaRecorder (length (calls st));
       CallRecorderStart (length (calls st));
       CallSetTimeout (length (calls st)) 30000]))
  ∧ (∀ es st obs, run mounted_state es = Some (st, obs) →
       (∀ k c, calls st !! k = Some c → returned c = Resolved →
               TimeoutFired k ∈ es ∧ StopFired k ∈ es)
       ∧ (recordingStatus st = stopped →
          ∃ k, TimeoutFired k ∈ es ∧ StopFired k ∈ es)
       ∧ (∀ k, CallRecorderStop k ∈ obs ↔ TimeoutFired k ∈ es))
  ∧ (∀ st k c,
       calls st !! k = Some c → returned c = Pending →
       timeout_set c = true → recorded_p c = Pending → stopped_p c = Resolved →
       ∃ st', step st (TimeoutFired k) =
                Some (st', [CallRecorderStop k;
                            CallCreateObjectURL (new_Blob (data c) "video/webm")])
              ∧ recordingStatus st' = stopped
              ∧ recordingVideo_src st' = Some (ObjectURL (new_Blob (data c) "video/webm"))
              ∧ download_href st' = Some (ObjectURL (new_Blob (data c) "video/webm"))
              ∧ download_name st' = Some "RecordedVideo.webm")
  ∧ (∀ st k c,
       calls st !! k = Some c → returned c = Pending →
       recorded_p c = Resolved → stopped_p c = Pending →
       ∃ st', step st (StopFired k) =
                Some (st', [CallCreateObjectURL (new_Blob (data c) "video/webm")])
              ∧ recordingStatus st' = stopped
              ∧ recordingVideo_src st' = Some (ObjectURL (new_Blob (data c) "video/webm"))
              ∧ download_href st' = Some (ObjectURL (new_Blob (data c) "video/webm"))
              ∧ download_name st' = Some "RecordedVideo.webm")
  ∧ (∀ parts, blob_type (new_Blob parts "video/webm") = "video/webm"
              ∧ blob_bytes (new_Blob parts "video/webm")
                = concat (map blob_bytes parts)).
Proof.
  split_and!.
  - done.
  - intros es st obs Hrun.
    destruct (run_page_ok es st obs Hrun) as [Hcalls Hstatus].
    split_and!.
    + intros k c Hk Hr. destruct (Hcalls k c Hk) as (H1 & H2 & H3 & H4).
      destruct (H4 Hr) as [Hs Hrec]. split; [by apply H1, H2 | by apply H3].
    + intros Hs. destruct (Hstatus Hs) as (k & c & Hk & Hr).
      destruct (Hcalls k c Hk) as (H1 & H2 & H3 & H4).
      destruct (H4 Hr) as [Hst Hrec].
      exists k. split; [by apply H1, H2 | by apply H3].
    + intros k. by eapply run_recorder_stop.
  - intros st k c Hk Hret Hset Hrec Hstop.
    eexists. cbn [step]. rewrite Hk. simpl. rewrite Hset.
    unfold settle, ontimeout, settle_promise. simpl.
    rewrite Hret, Hstop, Hrec. simpl. done.
  - intros st k c Hk Hret Hrec Hstop.
    eexists. cbn [step]. rewrite Hk. simpl.
    unfold settle, onstop, settle_promise. simpl.
    rewrite Hret, Hstop, Hrec. simpl. done.
  - done.
Qed.

Lemma recording_stops_after_timeout_witness :
  ∃ st obs,
    run mounted_state Scenario.take = Some (st, obs)
    ∧ recordingStatus st = stopped
    ∧ download_href st
      = Some (ObjectURL {| blob_bytes := [26; 69; 223]%Z;
                           blob_type := "video/webm" |})
    ∧ download_name st = Some "RecordedVideo.webm"
    ∧ ∃ k, TimeoutFired k ∈ Scenario.take ∧ StopFired k ∈ Scenario.take.
Proof.
  eexists _, _.
  match goal with
  | |- ?A ∧ _ => assert (Hrun : A) by (vm_compute; reflexivity)
  end.
  destruct recording_stops_after_timeout as (_ & Hruns & _).
  destruct (Hruns _ _ _ Hrun) as (_ & Hstatus & _).
  split; [exact Hrun|]. split; [reflexivity|]. split; [reflexivity|].
  split; [reflexivity|]. apply Hstatus. reflexivity.
Defined.

End RecordingClaims.

(** * Further properties of the code *)

(** ** The masking pass *)

Section MaskMore.
Import Mask MaskFacts.

(** X1. Masking twice is masking once: the pass only ever writes 0 where
    the classification says background, so a second pass over its own
    result with the same classification changes nothing. *)
Theorem mask_idempotent (seg pixels : list Z) :
  mask seg (mask seg pixels) = mask seg pixels.
Proof.
  apply list_eq. intros j.
  destruct (decide (j < length pixels)) as [Hlt|Hge].
  - rewrite (mask_lookup seg (mask seg pixels) j)
      by (unfold mask at 1; rewrite loop_length; exact Hlt).
    rewrite (mask_lookup seg pixels j Hlt).
    by destruct (bool_decide (j mod 4 = 3 ∧ seg !! (j / 4) = Some 0%Z)).
  - assert (length (mask seg pixels) = length pixels) as Hlen
      by apply loop_length.
    rewrite !lookup_ge_None_2; [done| |].
    + rewrite Hlen. lia.
    + unfold mask at 1. rewrite loop_length, Hlen. lia.
Qed.

(** X2. A pixel that has no entry in the classification array (the array is
    too short: the read yields [undefined], which is not [=== 0]) keeps its
    alpha, and a frame none of whose pixels is classified 0 comes back
    byte for byte, whatever the lengths of the two arrays. *)
Theorem mask_without_background (seg pixels : list Z) :
  (∀ p, seg !! p = None →
        mask seg pixels !! (4 * p + 3) = pixels !! (4 * p + 3))
  ∧ ((∀ p, seg !! p ≠ Some 0%Z) → mask seg pixels = pixels)
  ∧ mask [] pixels = pixels.
Proof.
  assert (Hkeep : (∀ p, seg !! p ≠ Some 0%Z) → mask seg pixels = pixels).
  { intros Hno. apply list_eq. intros j.
    destruct (decide (j < length pixels)) as [Hlt|Hge].
    - rewrite mask_lookup by done.
      rewrite bool_decide_eq_false_2; [done|]. intros [_ Hz]. by eapply Hno.
    - rewrite !lookup_ge_None_2; [done|lia|].
      unfold mask. rewrite loop_length. lia. }
  split_and!; [|done|].
  - intros p Hp.
    destruct (decide (4 * p + 3 < length pixels)) as [Hlt|Hge].
    + rewrite mask_lookup by done.
      replace (4 * p + 3) with (3 + p * 4) by lia.
      rewrite Nat.Div0.mod_add, Nat.div_add by lia.
      change (3 / 4) with 0. cbn [Nat.add].
      rewrite bool_decide_eq_false_2; [done|]. intros [_ Hz]. congruence.
    + rewrite !lookup_ge_None_2; [done|lia|].
      unfold mask. rewrite loop_length. lia.
  - apply list_eq. intros j.
    destruct (decide (j < length pixels)) as [Hlt|Hge].
    + rewrite mask_lookup by done.
      rewrite bool_decide_eq_false_2; [done|]. intros [_ Hz].
      by rewrite lookup_nil in Hz.
    + rewrite !lookup_ge_None_2; [done|lia|].
      unfold mask. rewrite loop_length. lia.
Qed.

Lemma mask_without_background_witness :
  mask [1]%Z Scenario.frame = Scenario.frame.
Proof.
  destruct (mask_without_background [1]%Z Scenario.frame) as (_ & Hkeep & _).
  apply Hkeep. intros [|p]; simpl; [discriminate|].
  rewrite lookup_nil. discriminate.
Defined.

(** The iterations of the loop started at pixel [p], for any length. *)
Lemma loop_visits_any_length fuel : ∀ seg p pixels,
  (length pixels + 3) / 4 - p ≤ fuel →
  map v_i (loop_visits fuel seg (4 * p) pixels).2 =
    map (λ q, 4 * q) (seq p ((length pixels + 3) / 4 - p)).
Proof.
  induction fuel as [|fuel IH]; intros seg p pixels Hfuel; cbn [loop_visits].
  { by replace ((length pixels + 3) / 4 - p) with 0 by lia. }
  pose proof (Nat.div_mod_eq (length pixels + 3) 4) as Hdm.
  pose proof (Nat.mod_upper_bound (length pixels + 3) 4 ltac:(lia)) as Hr.
  case_decide as Hi.
  - specialize (IH seg (S p) (body seg (4 * p) pixels)).
    rewrite body_length in IH.
    replace (4 * p + 4) with (4 * S p) by lia.
    destruct (loop_visits fuel seg (4 * S p) (body seg (4 * p) pixels))
      as [out vs]. cbn [snd] in IH. cbn [snd map].
    rewrite IH by lia.
    replace ((length pixels + 3) / 4 - p)
      with (S ((length pixels + 3) / 4 - S p)) by lia.
    done.
  - by replace ((length pixels + 3) / 4 - p) with 0 by lia.
Qed.

(** X3. For a buffer of any length the loop ends after as many iterations as
    the buffer has started pixels, a quarter of the length rounded up, at
    the indices 0, 4, 8, ...; when the last pixel is incomplete its write
    falls past the end of the typed array and changes nothing. *)
Theorem mask_iterations_any_length (seg pixels : list Z) :
  map v_i (mask_visits seg pixels).2 =
    map (λ q, 4 * q) (seq 0 ((length pixels + 3) / 4))
  ∧ length (mask_visits seg pixels).2 = (length pixels + 3) / 4
  ∧ (mask_visits seg pixels).1 = mask seg pixels
  ∧ (∀ i, length pixels ≤ i + 3 → body seg i pixels = pixels).
Proof.
  assert (Hvis : map v_i (mask_visits seg pixels).2 =
                 map (λ q, 4 * q) (seq 0 ((length pixels + 3) / 4))).
  { unfold mask_visits. change 0 with (4 * 0) at 1.
    rewrite loop_visits_any_length.
    - by rewrite Nat.sub_0_r.
    - pose proof (Nat.div_mod_eq (length pixels + 3) 4).
      pose proof (Nat.mod_upper_bound (length pixels + 3) 4 ltac:(lia)). lia. }
  split_and!.
  - exact Hvis.
  - rewrite <- (length_map v_i), Hvis, length_map. apply length_seq.
  - apply mask_visits_fst.
  - intros i Hi. unfold body.
    destruct (is_background seg i); [|done]. by apply list_insert_ge.
Qed.

End MaskMore.

(** ** The publisher *)

Module PublisherMoreFacts.
Import Dom Publisher PublisherFacts PublisherView.

Lemma track_stops_not_render (stream : MediaStream) :
  List.filter is_render
    (map (λ track, CallTrackStop (track_id track)) stream) = [].
Proof. induction stream; simpl; auto. Qed.

(** With a context missing, a step keeps the loop from starting and makes
    no call of the loop. *)
Lemma step_never_starts env st e st' obs :
  canvas2d env = false ∨ clone2d env = false →
  Inv st → never_starts env st → step env st e = Some (st', obs) →
  never_starts env st' ∧ List.filter is_render obs = [].
Proof.
  intros Henv [Hs Hi Hm _] [Hns Hnm] H.
  destruct (Hi Hns) as (Ha & Ht & Hf).
  unfold never_starts.
  step_inv H; try congruence.
  all: rewrite ?List.filter_app, ?track_stops_not_render; simpl.
  all: try (split_and!; first [done | congruence | intros; congruence]).
  exfalso. destruct Henv as [Henv|Henv]; [|done]. by apply Hnm.
Qed.

Lemma run_never_starts env es : ∀ st st' obs,
  canvas2d env = false ∨ clone2d env = false →
  Inv st → never_starts env st → run env st es = Some (st', obs) →
  never_starts env st' ∧ List.filter is_render obs = [].
Proof.
  induction es as [|e es IH]; intros st st' obs Henv HI Hns H; simpl in H.
  - by simplify_eq.
  - destruct (step env st e) as [[st1 obs1]|] eqn:Hstep; [|done].
    destruct (run env st1 es) as [[st2 obs2]|] eqn:Hrun; [|done].
    simplify_eq.
    destruct (step_never_starts _ _ _ _ _ Henv HI Hns Hstep) as [Hns1 Hf1].
    destruct (IH _ _ _ Henv (step_Inv _ _ _ _ _ HI Hstep) Hns1 Hrun)
      as [Hns2 Hf2].
    split; [done|]. by rewrite List.filter_app, Hf1, Hf2.
Qed.






End PublisherMoreFacts.

Section PublisherMore.
Import Dom Publisher PublisherFacts PublisherView PublisherMoreFacts.

(** X4. The compositing loop never runs twice at once. In every state the
    component can reach, at most one [renderCanvas] is pending, either as a
    worker timer or inside its [await]; before [startCanvasRendering] has
    run to its end none is; and every pending timer has the delay 30. *)
Theorem one_iteration_at_a_time (env : Env) (es : list Event) (st : State)
  (obs : list Obs) :
  run env created es = Some (st, obs) →
  awaiting st + length (timers st) ≤ 1
  ∧ (render st ≠ Started → awaiting st = 0 ∧ timers st = [])
  ∧ Forall (λ d, d = render_delay) (timers st).
Proof.
  intros Hrun.
  destruct (run_Inv _ _ _ _ _ Inv_created Hrun) as [Hs Hi _ _].
  destruct (run_Fixed _ _ _ _ _ Fixed_created Hrun) as [_ _ _ Ht].
  split_and!; [done| |done].
  intros Hr. destruct (Hi Hr) as (? & ? & _). done.
Qed.

Lemma one_iteration_at_a_time_witness :
  ∃ st obs,
    run Scenario.browser created
      (Scenario.boot ++ [ModelLoaded;
                         SegmentationResolved Scenario.seg Scenario.frame])
    = Some (st, obs)
    ∧ awaiting st + length (timers st) ≤ 1
    ∧ timers st = [render_delay].
Proof.
  eexists _, _.
  match goal with
  | |- ?A ∧ _ => assert (HA : A) by (vm_compute; reflexivity)
  end.
  destruct (one_iteration_at_a_time _ _ _ _ HA) as (Hone & _).
  split; [exact HA|]. split; [exact Hone|reflexivity].
Defined.



(** X6. Every iteration that gets its segmentation composites. In every
    state the component can reach, [renderCanvas] after its [await] draws
    the background image and then the masked frame on the output canvas, at
    640 x 480, and throws nothing: [backgroundImage] and [quality] are set
    in [created()] and never assigned again, so the branch that throws
    'Unable to get background image' is never taken. *)
Theorem every_iteration_composites (env : Env) (es : list Event) (st : State)
  (obs : list Obs) :
  run env created es = Some (st, obs) →
  awaiting st ≠ 0 →
  ∀ seg frame,
    ∃ st' obs',
      step env st (SegmentationResolved seg frame) = Some (st', obs')
      ∧ List.filter on_output obs' =
          [CallDrawImage OutputCtx
             (ImageOf {| src := "~/assets/icons/mars_background.jpg" |})
             0 0 640 480;
           CallDrawImage OutputCtx (CanvasOf (Mask.mask seg frame))
             0 0 640 480]
      ∧ (∀ fn msg, Thrown fn msg ∉ obs')
      ∧ backgroundImage st' = backgroundImage created
      ∧ quality st' = "high".
Proof.
  intros Hrun Ha seg frame.
  destruct (run_Fixed _ _ _ _ _ Fixed_created Hrun) as [Hq Hb _ _].
  simpl in Hq, Hb.
  cbn [step].
  destruct (awaiting st) as [|n] eqn:Hn; [done|].
  unfold renderCanvas_resume. rewrite Hb, Hq.
  destruct (processCanvas st); cbn.
  all: eexists _, _; (split; [reflexivity|]); cbn.
  all: split_and!; try done.
  all: intros fn msg Hin;
    repeat (apply elem_of_cons in Hin as [Hin|Hin]; [discriminate Hin|]);
    by apply elem_of_nil in Hin.
Qed.

Lemma every_iteration_composites_witness :
  ∃ st obs st' obs',
    run Scenario.browser created Scenario.looping = Some (st, obs)
    ∧ step Scenario.browser st
        (SegmentationResolved Scenario.seg Scenario.frame) = Some (st', obs')
    ∧ List.filter on_output obs' =
        [CallDrawImage OutputCtx
           (ImageOf {| src := "~/assets/icons/mars_background.jpg" |})
           0 0 640 480;
         CallDrawImage OutputCtx
           (CanvasOf (Mask.mask Scenario.seg Scenario.frame)) 0 0 640 480].
Proof.
  eexists _, _.
  assert (Hrun : run Scenario.browser created Scenario.looping = Some (_, _))
    by (vm_compute; reflexivity).
  destruct (every_iteration_composites _ _ _ _ Hrun ltac:(discriminate)
              Scenario.seg Scenario.frame)
    as (st' & obs' & Hstep & Hdraw & _).
  exists st', obs'. split; [exact Hrun|]. split; [exact Hstep|exact Hdraw].
Defined.

(** X7. [stop()] can be called again: a second call leaves the component
    as the first left it, and makes the same calls once more
    ([publisher.destroy()] and [stop()] on each track, or the same throw
    when the video has no stream). *)
Theorem stop_twice (st : State) :
  (stop (stop st).1).1 = (stop st).1
  ∧ (stop (stop st).1).2 = (stop st).2.
Proof.
  unfold stop. destruct st as [pub q bg pc src ini ren aw ti]; simpl.
  destruct src as [stream|]; simpl; [|done].
  split.
  - unfold set_srcObject, set_processCanvas; simpl.
    f_equal. f_equal. rewrite map_map. by apply map_ext.
  - f_equal. rewrite map_map. by apply map_ext.
Qed.

(** X8. What the component has done when its fields say so. In every state
    it can reach: the publisher exists exactly when [mounted()] has run to
    its end, and then the video has its stream; and [processCanvas] is true
    only if [startCanvasRendering] has run to its end, which is after the
    publisher was created. *)
Theorem publisher_needs_stream (env : Env) (es : list Event) (st : State)
  (obs : list Obs) :
  run env created es = Some (st, obs) →
  (publisher st = true ↔ init st = Mounted)
  ∧ (publisher st = true → is_Some (srcObject st))
  ∧ (processCanvas st = true → render st = Started ∧ publisher st = true).
Proof.
  intros Hrun.
  destruct (run_Inv _ _ _ _ _ Inv_created Hrun) as [_ Hi Hm Hsrc].
  destruct (run_Fixed _ _ _ _ _ Fixed_created Hrun) as [_ _ Hp _].
  assert (Hpub : publisher st = true → init st = Mounted).
  { intros Ht. destruct (init st) eqn:Hin; try done;
      destruct Hm as [_ Hf]; congruence. }
  split_and!.
  - split; [exact Hpub|exact Hp].
  - intros Ht. apply Hsrc. right. by apply Hpub.
  - intros Ht.
    assert (render st = Started) as Hr.
    { destruct (render st) eqn:Hr; try done;
        destruct Hi as (_ & _ & Hf); congruence. }
    split; [done|]. apply Hp.
    destruct (init st) eqn:Hin; try done; destruct Hm as [Hn _]; congruence.
Qed.

Lemma publisher_needs_stream_witness :
  ∃ st obs,
    run Scenario.browser created Scenario.looping = Some (st, obs)
    ∧ processCanvas st = true
    ∧ render st = Started ∧ publisher st = true.
Proof.
  eexists _, _.
  assert (Hrun : run Scenario.browser created Scenario.looping = Some (_, _))
    by (vm_compute; reflexivity).
  destruct (publisher_needs_stream _ _ _ _ Hrun) as (_ & _ & Hflag).
  split; [exact Hrun|]. split; [reflexivity|]. apply Hflag. reflexivity.
Defined.

(** X9. Without a 2D context nothing is ever rendered. If the output
    canvas or its clone has no 2D context, then in every run of the
    component [processCanvas] stays false and no call of the loop is made:
    no segmentation, no draw, no image data read or written, no timer. *)
Theorem no_context_no_rendering (env : Env) (es : list Event) (st : State)
  (obs : list Obs) :
  canvas2d env = false ∨ clone2d env = false →
  run env created es = Some (st, obs) →
  List.filter is_render obs = []
  ∧ processCanvas st = false ∧ render st ≠ Started
  ∧ awaiting st = 0 ∧ timers st = [].
Proof.
  intros Henv Hrun.
  assert (never_starts env created) as Hns by (split; simpl; done).
  destruct (run_never_starts _ _ _ _ _ Henv Inv_created Hns Hrun)
    as [[Hr _] Hf].
  destruct (run_Inv _ _ _ _ _ Inv_created Hrun) as [_ Hi _ _].
  destruct (Hi Hr) as (? & ? & ?). done.
Qed.

Lemma no_context_no_rendering_witness :
  ∃ st obs,
    run Scenario.no_context created (Scenario.boot ++ [StopCalled])
    = Some (st, obs)
    ∧ List.filter is_render obs = [] ∧ processCanvas st = false.
Proof.
  eexists _, _.
  assert (Hrun : run Scenario.no_context created
                   (Scenario.boot ++ [StopCalled]) = Some (_, _))
    by (vm_compute; reflexivity).
  destruct (no_context_no_rendering Scenario.no_context _ _ _
              (or_introl eq_refl) Hrun) as (Hf & Hp & _).
  split; [exact Hrun|]. split; [exact Hf|exact Hp].
Defined.



(** X11. What [mounted()] sets up is set up once. In every run of the
    component, whatever the order of the events and however many frames are
    rendered or [stop()] calls made, each of these calls is made at most
    once: [enumerateDevices], [getUserMedia], [play], [getContext('2d')] on
    the output canvas, [bodyPix.load], [cloneNode().getContext('2d')],
    [captureStream], [initPublisher] and [session.publish]. In particular
    the model is loaded once and the same off-screen canvas serves every
    frame. [session.publish] has been called exactly when [mounted()] has
    run to its end, and [captureStream], [initPublisher] and
    [session.publish] are only ever called together. *)
Theorem mounted_sets_up_once (env : Env) (es : list Event) (st : State)
  (obs : list Obs) :
  run env created es = Some (st, obs) →
  (∀ c, count_call c obs ≤ 1)
  ∧ (init st = Mounted ↔ count_call Publish obs = 1)
  ∧ (count_call Publish obs = count_call InitPublisher obs
     ∧ count_call Publish obs = count_call Capture obs).
Proof.
  intros Hrun.
  destruct (run_Once _ _ _ _ Hrun) as [He [Hu _] [Hp _] Hm [Hl _] [Hc _]].
  split_and!.
  - intros c. destruct c; try done.
    + rewrite He. destruct (init st); lia.
    + rewrite Hm by auto. destruct (init st); lia.
    + rewrite Hm by auto. destruct (init st); lia.
    + rewrite Hm by auto. destruct (init st); lia.
    + rewrite Hm by auto. destruct (init st); lia.
  - rewrite Hm by auto. destruct (init st); split; intros; congruence.
  - by rewrite !Hm by auto.
  - by rewrite !Hm by auto.
Qed.

Lemma mounted_sets_up_once_witness :
  ∃ st obs,
    run Scenario.browser created Scenario.looping = Some (st, obs)
    ∧ count_call ModelLoad obs ≤ 1
    ∧ count_call Publish obs = 1.
Proof.
  eexists _, _.
  match goal with
  | |- ?A ∧ _ => assert (Hrun : A) by (vm_compute; reflexivity)
  end.
  destruct (mounted_sets_up_once _ _ _ _ Hrun) as (Hle & Hpub & _).
  split; [exact Hrun|]. split; [apply Hle|]. apply Hpub. reflexivity.
Defined.

(** X23. [stop()] ends a loop that runs. Called once [startCanvasRendering]
    has run to its end, [stop()] sets [processCanvas] to false and the loop
    sets no timer again: the flag is read when an iteration ends, so after
    [stop()] at most one iteration still ends (the one in flight, or the one
    whose timer was already set), and none reschedules. An iteration that
    ends normally sets its timer exactly when the flag is true, and every
    timer ever set has the delay 30. *)
Theorem stop_ends_rescheduling (env : Env) (before after : list Event)
  (st1 st2 : State) (obs1 obs2 : list Obs) :
  run env created before = Some (st1, obs1) →
  render st1 = Started →
  run env st1 (StopCalled :: after) = Some (st2, obs2) →
  processCanvas st2 = false
  ∧ List.filter is_set_timeout obs2 = []
  ∧ length (List.filter is_iteration_end after) ≤ 1
  ∧ Forall (λ o, ∀ d, o = CallWorkerSetTimeout d → d = render_delay)
           (obs1 ++ obs2)
  ∧ (∀ seg frame st img, backgroundImage st = Some img →
       List.filter is_set_timeout (renderCanvas_resume seg frame st).2 =
         if processCanvas st then [CallWorkerSetTimeout render_delay] else []).
Proof.
  intros Hbefore Hstarted Hafter.
  pose proof (run_Inv _ _ _ _ _ Inv_created Hbefore) as HI.
  simpl in Hafter.
  destruct (run env (stop st1).1 after) as [[st3 obs3]|] eqn:Hrun;
    destruct (stop st1) as [st1' o1] eqn:Hstop; simpl in *;
    rewrite Hrun in Hafter; [|done].
  simplify_eq.
  destruct (stop_flag st1) as (Hp & Hr & Ha & Ht & Hf). rewrite Hstop in *.
  simpl in *.
  assert (Inv st1') as HI'.
  { apply (step_Inv env st1 StopCalled st1' o1 HI). simpl. by rewrite Hstop. }
  destruct (run_stopped env after st1' st2 obs3 HI') as (Hp2 & _ & Hf2 & Hn);
    [congruence|done|done|].
  split_and!.
  - done.
  - by rewrite List.filter_app, Hf, Hf2.
  - destruct HI as [Hs _ _ _]. rewrite Ha, Ht in Hn. lia.
  - apply Forall_app; split; [by eapply run_delay|].
    apply Forall_app; split; [|by eapply run_delay].
    apply (step_delay env st1 StopCalled st1'). simpl. by rewrite Hstop.
  - intros seg frame st img Hbg. unfold renderCanvas_resume. rewrite Hbg.
    by destruct (processCanvas st).
Qed.

Lemma stop_ends_rescheduling_witness :
  ∃ st1 obs1 st2 obs2,
    run Scenario.browser created Scenario.looping = Some (st1, obs1)
    ∧ render st1 = Started
    ∧ run Scenario.browser st1
        [StopCalled; SegmentationResolved Scenario.seg Scenario.frame]
      = Some (st2, obs2)
    ∧ processCanvas st2 = false
    ∧ List.filter is_set_timeout obs2 = []
    ∧ List.filter is_set_timeout obs1 = [CallWorkerSetTimeout render_delay].
Proof.
  eexists _, _, _, _.
  match goal with
  | |- ?A ∧ ?B ∧ ?C ∧ _ =>
      assert (HA : A) by (vm_compute; reflexivity);
      assert (HB : B) by reflexivity;
      assert (HC : C) by (vm_compute; reflexivity)
  end.
  pose proof (stop_ends_rescheduling _ _ _ _ _ _ _ HA HB HC) as (Hp & Hf & _).
  split; [exact HA|]. split; [exact HB|]. split; [exact HC|].
  split; [exact Hp|]. split; [exact Hf|reflexivity].
Defined.

End PublisherMore.

(** ** The choice of the camera *)

Module DomFacts.
Import Dom.

Lemma find_videoinput_first pre d post :
  kind d = "videoinput" →
  Forall (λ x, kind x ≠ "videoinput") pre →
  find_videoinput (pre ++ d :: post) = Some d.
Proof.
  intros Hd Hpre. unfold find_videoinput.
  induction Hpre as [|x pre Hx _ IH]; simpl.
  - rewrite Hd. done.
  - destruct (String.eqb_spec (kind x) "videoinput"); [done|exact IH].
Qed.

Lemma find_videoinput_none devices :
  Forall (λ x, kind x ≠ "videoinput") devices →
  find_videoinput devices = None.
Proof.
  unfold find_videoinput. induction 1 as [|x l Hx _ IH]; simpl; [done|].
  destruct (String.eqb_spec (kind x) "videoinput"); [done|exact IH].
Qed.

End DomFacts.

Section CameraChoice.
Import Dom DomFacts.

(** X12. Both components ask for the first video input. When the list of
    devices has a device of kind 'videoinput', [getUserMedia] is called with
    the [deviceId] of the first such device, a frame rate of 30 and the
    component's width and height as ideal size; the devices before it are
    passed over and those after it are not looked at. When the list has
    none, [initMediaStream] of the recorder page throws 'Could not get video
    device', does not call [getUserMedia], and leaves status and stream as
    they are. *)
Theorem first_video_input_is_used :
  (∀ pre d post,
     kind d = "videoinput" → Forall (λ x, kind x ≠ "videoinput") pre →
     (∀ st, Publisher.initCanvasPublisher_devices (pre ++ d :: post) st =
              (Publisher.set_init Publisher.AwaitUserMedia st,
               [Publisher.CallGetUserMedia (deviceId d) 30
                  (videoWidth (Publisher.quality st))
                  (videoHeight (Publisher.quality st))]))
     ∧ (∀ st, Recorder.initMediaStream_devices (pre ++ d :: post) st =
                (Recorder.set_awaiting_stream
                   (S (Recorder.awaiting_stream st))
                   (Recorder.set_awaiting_devices
                      (pred (Recorder.awaiting_devices st)) st),
                 [Recorder.CallGetUserMedia (deviceId d) 30
                    (videoWidth (Recorder.quality st))
                    (videoHeight (Recorder.quality st))])))
  ∧ (∀ devices st,
       Forall (λ x, kind x ≠ "videoinput") devices →
       Recorder.initMediaStream_devices devices st =
         (Recorder.set_awaiting_devices
            (pred (Recorder.awaiting_devices st)) st,
          [Recorder.Thrown "initMediaStream" "Could not get video device"])).
Proof.
  split.
  - intros pre d post Hd Hpre.
    pose proof (find_videoinput_first pre d post Hd Hpre) as Hfind.
    split; intros st.
    + unfold Publisher.initCanvasPublisher_devices. by rewrite Hfind.
    + unfold Recorder.initMediaStream_devices. by rewrite Hfind.
  - intros devices st Hnone.
    unfold Recorder.initMediaStream_devices.
    by rewrite (find_videoinput_none devices Hnone).
Qed.

Lemma first_video_input_is_used_witness :
  Publisher.initCanvasPublisher_devices
    [Scenario.microphone; Scenario.camera; Scenario.microphone]
    Publisher.created =
    (Publisher.set_init Publisher.AwaitUserMedia Publisher.created,
     [Publisher.CallGetUserMedia "cam0" 30 640 480]).
Proof.
  destruct first_video_input_is_used as [Hfirst _].
  destruct (Hfirst [Scenario.microphone] Scenario.camera [Scenario.microphone])
    as [Hpub _].
  - reflexivity.
  - repeat constructor. discriminate.
  - exact (Hpub Publisher.created).
Defined.

End CameraChoice.

(** ** The index page *)

Module IndexMoreFacts.
Import Index IndexView.

Lemma step_sessions env st e st' obs :
  sessions_from_env env st → step env st e = Some (st', obs) →
  sessions_from_env env st'
  ∧ shows_CanvasPublisher st' =
      shows_CanvasPublisher st || negb (is_failure e).
Proof.
  intros [Hs Hc] H.
  destruct e as [|[err|]]; cbn [step] in H; unfold connect_callback in H.
  - unfold start in H.
    destruct (truthy (API_KEY env)) as [key|] eqn:Hk;
      destruct (truthy (SESSION_ID env)) as [id|] eqn:Hi;
      destruct (truthy (OT_TOKEN env)) as [token|] eqn:Ht; simplify_eq;
      (split; [|unfold shows_CanvasPublisher; simpl;
                by rewrite orb_false_r]); try done.
    split; [done|]. simpl. apply Forall_app. split; [done|].
    by repeat constructor.
  - destruct (connecting st) as [|s rest] eqn:Hconn; [done|]. simplify_eq.
    split; [|unfold shows_CanvasPublisher; simpl; by destruct (session st)].
    split; [done|]. simpl. by apply Forall_cons in Hc as [_ ?].
  - destruct (connecting st) as [|s rest] eqn:Hconn; [done|]. simplify_eq.
    apply Forall_cons in Hc as [Hfrom Hrest].
    split; [|unfold shows_CanvasPublisher; simpl; by destruct (session st)].
    split; [|done]. simpl. intros s' Heq. by simplify_eq.
Qed.

Lemma run_sessions env es : ∀ st st' obs,
  sessions_from_env env st → run env st es = Some (st', obs) →
  sessions_from_env env st'
  ∧ shows_CanvasPublisher st' =
      shows_CanvasPublisher st || negb (forallb is_failure es).
Proof.
  induction es as [|e es IH]; intros st st' obs Hs H; cbn [run forallb] in *.
  - simplify_eq. split; [done|]. by rewrite orb_false_r.
  - destruct (step env st e) as [[st1 obs1]|] eqn:Hstep; [|done].
    destruct (run env st1 es) as [[st2 obs2]|] eqn:Hrun; [|done].
    simplify_eq.
    destruct (step_sessions _ _ _ _ _ Hs Hstep) as [Hs1 Hshow1].
    destruct (IH _ _ _ Hs1 Hrun) as [Hs2 Hshow2].
    split; [done|]. rewrite Hshow2, Hshow1.
    destruct (shows_CanvasPublisher st), (is_failure e),
      (forallb is_failure es); done.
Qed.

End IndexMoreFacts.

Section IndexMore.
Import Index IndexView IndexMoreFacts.

(** X13. [start()] needs its three variables. If [API_KEY], [SESSION_ID] or
    [OT_TOKEN] is undefined or the empty string, [start()] throws 'Could not
    get env tokens' before it touches the SDK and the page is unchanged;
    otherwise it initialises a session with the key and the session id and
    calls [connect] with the token, once, without assigning [session]. *)
Theorem start_needs_three_tokens (env : ProcessEnv) (st : State) :
  (API_KEY env = None ∨ API_KEY env = Some ""
   ∨ SESSION_ID env = None ∨ SESSION_ID env = Some ""
   ∨ OT_TOKEN env = None ∨ OT_TOKEN env = Some "" →
   start env st = (st, [Thrown "start" "Could not get env tokens"]))
  ∧ (∀ key id token,
       API_KEY env = Some key → key ≠ "" →
       SESSION_ID env = Some id → id ≠ "" →
       OT_TOKEN env = Some token → token ≠ "" →
       start env st =
         ({| session := session st;
             connecting := connecting st
                           ++ [{| apiKey := key; sessionId := id |}] |},
          [CallInitSession key id; CallConnect token])).
Proof.
  assert (Hempty : truthy (Some "") = None) by done.
  assert (Hfull : ∀ v, v ≠ "" → truthy (Some v) = Some v).
  { intros v Hv. unfold truthy.
    destruct (String.eqb_spec v ""); [done|done]. }
  split.
  - intros Hmiss. unfold start.
    destruct (truthy (API_KEY env)) eqn:Hk;
      destruct (truthy (SESSION_ID env)) eqn:Hi;
      destruct (truthy (OT_TOKEN env)) eqn:Ht; try done.
    exfalso.
    destruct Hmiss as [H|[H|[H|[H|[H|H]]]]]; rewrite H in *; discriminate.
  - intros key id token Hk Hkne Hi Hine Ht Htne. unfold start.
    by rewrite Hk, Hi, Ht, !Hfull.
Qed.

Lemma start_needs_three_tokens_witness :
  start {| API_KEY := Some "key"; SESSION_ID := Some "";
           OT_TOKEN := Some "token" |} initial
  = (initial, [Thrown "start" "Could not get env tokens"]).
Proof.
  destruct (start_needs_three_tokens
              {| API_KEY := Some "key"; SESSION_ID := Some "";
                 OT_TOKEN := Some "token" |} initial) as [Hmiss _].
  apply Hmiss. right. right. right. left. reflexivity.
Defined.

(** X14. The publisher shows once a connect has succeeded, and for good. In
    every run from the initial page the CanvasPublisher is rendered exactly
    when some connect has completed without error; no event sets [session]
    back to null; and the session it is given was initialised with the
    [API_KEY] and [SESSION_ID] of the environment. *)
Theorem publisher_shown_iff_connected (env : ProcessEnv) (es : list Event)
  (st : State) (obs : list Obs) :
  run env initial es = Some (st, obs) →
  shows_CanvasPublisher st = negb (forallb is_failure es)
  ∧ (∀ s, session st = Some s →
          truthy (API_KEY env) = Some (apiKey s)
          ∧ truthy (SESSION_ID env) = Some (sessionId s))
  ∧ (∀ es' st' obs', run env st es' = Some (st', obs') →
       shows_CanvasPublisher st = true → shows_CanvasPublisher st' = true).
Proof.
  intros Hrun.
  assert (sessions_from_env env initial) as Hinit by (split; simpl; done).
  destruct (run_sessions _ _ _ _ _ Hinit Hrun) as [[Hs Hc] Hshow].
  split_and!.
  - exact Hshow.
  - exact Hs.
  - intros es' st' obs' Hrun' Hshown.
    destruct (run_sessions env es' st st' obs' (conj Hs Hc) Hrun') as [_ H'].
    by rewrite H', Hshown.
Qed.

Lemma publisher_shown_iff_connected_witness :
  ∃ st obs,
    run Scenario.tokens initial
      [StartClicked; ConnectCompleted (Some "denied");
       StartClicked; ConnectCompleted None] = Some (st, obs)
    ∧ shows_CanvasPublisher st = true
    ∧ session st = Some {| apiKey := "key"; sessionId := "room" |}.
Proof.
  eexists _, _.
  assert (Hrun : run Scenario.tokens initial
                   [StartClicked; ConnectCompleted (Some "denied");
                    StartClicked; ConnectCompleted None] = Some (_, _))
    by (vm_compute; reflexivity).
  destruct (publisher_shown_iff_connected _ _ _ _ Hrun) as (Hshow & _).
  split; [exact Hrun|]. split; [exact Hshow|reflexivity].
Defined.

End IndexMore.

Section PageMore.
Import Page.

(** X15. [stop()] of the index page stops the child first and disconnects
    only afterwards. It never assigns [session], so the CanvasPublisher
    stays rendered; with a child it clears the child's [processCanvas];
    when the child's video has its stream and a session exists it then
    calls [disconnect()]; when the child's video has no stream yet, the
    child's [stop()] throws and [disconnect()] is not called; without a
    child it only disconnects the session, if there is one. *)
Theorem index_stop_child_then_session (st : State) :
  page (stop st).1 = page st
  ∧ (canvasPublisher st = None →
     (stop st).1 = st
     ∧ (stop st).2 = match Index.session (page st) with
                     | Some _ => [CallDisconnect]
                     | None => []
                     end)
  ∧ (∀ child, canvasPublisher st = Some child →
       canvasPublisher (stop st).1 = Some (Publisher.stop child).1
       ∧ Publisher.processCanvas (Publisher.stop child).1 = false
       ∧ (∀ stream s,
            Publisher.srcObject child = Some stream →
            Index.session (page st) = Some s →
            (stop st).2 =
              map OfPublisher (Publisher.stop child).2 ++ [CallDisconnect])
       ∧ (Publisher.srcObject child = None →
          (stop st).2 = map OfPublisher (Publisher.stop child).2
          ∧ OfPublisher (Publisher.Thrown "stop" "TypeError") ∈ (stop st).2)).
Proof.
  unfold stop. destruct (canvasPublisher st) as [child|] eqn:Hchild.
  - destruct (Publisher.stop child) as [child' obs] eqn:Hstop. simpl.
    split_and!; [done|done|].
    intros c Hc. simplify_eq. rewrite Hstop. simpl.
    split_and!; [done| | |].
    + pose proof (PublisherFacts.stop_flag c) as (Hflag & _).
      by rewrite Hstop in Hflag.
    + intros stream s Hsrc Hsess. by rewrite Hsrc, Hsess.
    + intros Hsrc. rewrite Hsrc, app_nil_r. split; [done|].
      unfold Publisher.stop in Hstop. rewrite Hsrc in Hstop. simplify_eq.
      rewrite map_app, elem_of_app. right. simpl. apply elem_of_cons. by left.
  - simpl. split_and!; [done|done|]. intros child Hc. discriminate Hc.
Qed.

Lemma index_stop_child_then_session_witness :
  (stop {| page := {| Index.session :=
                        Some {| Index.apiKey := "key";
                                Index.sessionId := "room" |};
                      Index.connecting := [] |};
           canvasPublisher := Some Scenario.playing |}).2
  = [OfPublisher (Publisher.CallTrackStop 0);
     OfPublisher (Publisher.CallTrackStop 1); CallDisconnect].
Proof.
  destruct (index_stop_child_then_session
              {| page := {| Index.session :=
                              Some {| Index.apiKey := "key";
                                      Index.sessionId := "room" |};
                            Index.connecting := [] |};
                 canvasPublisher := Some Scenario.playing |})
    as (_ & _ & Hchild).
  destruct (Hchild Scenario.playing eq_refl) as (_ & _ & Hboth & _).
  exact (Hboth Scenario.stream _ eq_refl eq_refl).
Defined.

End PageMore.

(** ** The recorder page: the camera *)

Module RecorderMoreFacts.
Import Dom Recorder RecorderView.

Lemma track_stops_no_throw fn (stream : MediaStream) :
  List.filter (is_throw_of fn)
    (map (λ track, CallTrackStop (track_id track)) stream) = [].
Proof. induction stream; simpl; auto. Qed.

(** The 'play' event touches the timers only, and [stopMediaStream] is not
    the function that may throw in it. *)
Lemma play_event_frame canvas2d n : ∀ st,
  mediaStreamStatus (play_event canvas2d n st).1 = mediaStreamStatus st
  ∧ srcObject (play_event canvas2d n st).1 = srcObject st
  ∧ play_listeners (play_event canvas2d n st).1 = play_listeners st
  ∧ List.filter (is_throw_of "stopMediaStream") (play_event canvas2d n st).2
    = [].
Proof.
  induction n as [|n IH]; intros st; simpl; [done|].
  unfold renderCanvas. destruct canvas2d.
  - specialize (IH (set_timers (timers st ++ [frame_delay]) st)).
    destruct (play_event true n (set_timers (timers st ++ [frame_delay]) st))
      as [st2 obs2]. simpl in *. done.
  - specialize (IH st).
    destruct (play_event false n st) as [st2 obs2]. simpl in *. done.
Qed.

Lemma step_stream canvas2d st e st' obs :
  has_stream_unless_initial st → step canvas2d st e = Some (st', obs) →
  has_stream_unless_initial st'
  ∧ List.filter (is_throw_of "stopMediaStream") obs = []
  ∧ play_listeners st' =
      play_listeners st + (if is_stream_resolved e then 1 else 0).
Proof.
  unfold has_stream_unless_initial. intros Hst H.
  destruct e; cbn [step] in H;
    unfold toggleMediaStream, stopMediaStream, initMediaStream_call,
      initMediaStream_devices, initMediaStream_stream, renderCanvas in H.
  - simplify_eq. simpl. auto with lia.
  - destruct (mediaStreamStatus st) eqn:Hstatus.
    + simplify_eq. simpl. rewrite Hstatus. auto with lia.
    + destruct Hst as [stream Hsrc]; [done|]. rewrite Hsrc in H.
      simplify_eq. simpl. rewrite track_stops_no_throw.
      split_and!; [eauto|done|lia].
    + simplify_eq. simpl. rewrite Hstatus. auto with lia.
  - destruct (awaiting_devices st); [done|].
    destruct (find_videoinput devices); simplify_eq; simpl; auto with lia.
  - destruct (awaiting_stream st); [done|]. simplify_eq. simpl.
    split_and!; [eauto|done|lia].
  - destruct (awaiting_stream st); [done|]. simplify_eq. simpl.
    auto with lia.
  - simplify_eq.
    pose proof (play_event_frame canvas2d (play_listeners st) st)
      as (Hs & Hsrc & Hl & Hno).
    rewrite H in Hs, Hsrc, Hl, Hno. simpl in *.
    rewrite Hs, Hsrc, Hl. auto with lia.
  - destruct (timers st) as [|d rest]; [done|].
    destruct canvas2d; simplify_eq; simpl; auto with lia.
Qed.

Lemma run_stream canvas2d es : ∀ st st' obs,
  has_stream_unless_initial st → run canvas2d st es = Some (st', obs) →
  has_stream_unless_initial st'
  ∧ List.filter (is_throw_of "stopMediaStream") obs = []
  ∧ play_listeners st' =
      play_listeners st + length (List.filter is_stream_resolved es).
Proof.
  induction es as [|e es IH]; intros st st' obs Hst H; cbn [run] in H.
  - simplify_eq. simpl. auto with lia.
  - destruct (step canvas2d st e) as [[st1 obs1]|] eqn:Hstep; [|done].
    destruct (run canvas2d st1 es) as [[st2 obs2]|] eqn:Hrun; [|done].
    simplify_eq.
    destruct (step_stream _ _ _ _ _ Hst Hstep) as (Hst1 & Hno1 & Hl1).
    destruct (IH _ _ _ Hst1 Hrun) as (Hst2 & Hno2 & Hl2).
    split_and!; [done|by rewrite List.filter_app, Hno1, Hno2|].
    cbn [List.filter]. destruct (is_stream_resolved e); simpl in *; lia.
Qed.

Lemma track_stops_not_drawing (stream : MediaStream) :
  List.filter is_drawing
    (map (λ track, CallTrackStop (track_id track)) stream) = [].
Proof. induction stream; simpl; auto. Qed.

(** Without a 2D context every listener of 'play' throws at once. *)
Lemma play_event_no_context n st :
  (play_event false n st).1 = st
  ∧ List.filter is_drawing (play_event false n st).2 = [].
Proof.
  induction n as [|n IH]; simpl; [done|].
  destruct (play_event false n st) as [st2 obs2]. simpl in *. done.
Qed.

Lemma step_no_context st e st' obs :
  timers st = [] → step false st e = Some (st', obs) →
  timers st' = [] ∧ List.filter is_drawing obs = []
  ∧ is_timer_fired e = false.
Proof.
  intros Ht H. destruct e; cbn [step] in H;
    unfold toggleMediaStream, stopMediaStream, initMediaStream_call,
      initMediaStream_devices, initMediaStream_stream, renderCanvas in H.
  - by simplify_eq.
  - destruct (mediaStreamStatus st), (srcObject st); simplify_eq; simpl;
      rewrite ?track_stops_not_drawing; auto.
  - destruct (awaiting_devices st); [done|].
    destruct (find_videoinput devices); by simplify_eq.
  - destruct (awaiting_stream st); [done|]. by simplify_eq.
  - destruct (awaiting_stream st); [done|]. by simplify_eq.
  - simplify_eq.
    destruct (play_event_no_context (play_listeners st) st) as [Hs Hd].
    rewrite H in Hs, Hd. simpl in *. by subst.
  - by rewrite Ht in H.
Qed.

Lemma run_no_context es : ∀ st st' obs,
  timers st = [] → run false st es = Some (st', obs) →
  timers st' = [] ∧ List.filter is_drawing obs = []
  ∧ List.filter is_timer_fired es = [].
Proof.
  induction es as [|e es IH]; intros st st' obs Ht H; cbn [run] in H.
  - by simplify_eq.
  - destruct (step false st e) as [[st1 obs1]|] eqn:Hstep; [|done].
    destruct (run false st1 es) as [[st2 obs2]|] eqn:Hrun; [|done].
    simplify_eq.
    destruct (step_no_context _ _ _ _ Ht Hstep) as (Ht1 & Hd1 & He1).
    destruct (IH _ _ _ Ht1 Hrun) as (Ht2 & Hd2 & He2).
    split_and!; [done|by rewrite List.filter_app, Hd1, Hd2|].
    cbn [List.filter]. by rewrite He1.
Qed.

End RecorderMoreFacts.

Section RecorderMore.
Import Dom Recorder RecorderView RecorderFacts RecorderMoreFacts.

(** X16. The toggle button does what its text says, and [stopMediaStream]
    never throws on the page. In every run from the mounted page a status
    other than initial means the video has its stream, so 'Could not get
    local stream to stop' is never thrown; when the button reads 'Stop
    Media Stream' a click stops every track and sets the status to stopped;
    when it reads 'Start Media Stream' a click starts [initMediaStream]
    again. *)
Theorem toggle_does_what_the_button_says (canvas2d : bool)
  (es : list Event) (st : State) (obs : list Obs) :
  run canvas2d mounted_state es = Some (st, obs) →
  List.filter (is_throw_of "stopMediaStream") obs = []
  ∧ (toggleMediaStreamButtonText st = "Stop Media Stream" →
     ∃ stream,
       srcObject st = Some stream
       ∧ toggleMediaStream st =
           (set_mediaStreamStatus stopped
              (set_srcObject (Some (map track_stop stream)) st),
            map (λ track, CallTrackStop (track_id track)) stream))
  ∧ (toggleMediaStreamButtonText st = "Start Media Stream" →
     toggleMediaStream st =
       (set_awaiting_devices (S (awaiting_devices st)) st,
        [CallEnumerateDevices])).
Proof.
  intros Hrun.
  assert (has_stream_unless_initial mounted_state) as Hinit
    by (intros Hne; by simpl in Hne).
  destruct (run_stream _ _ _ _ _ Hinit Hrun) as (Hst & Hno & _).
  unfold toggleMediaStreamButtonText, toggleMediaStream, stopMediaStream,
    initMediaStream_call.
  split_and!; [done| |].
  - destruct (mediaStreamStatus st) eqn:Hstatus; try discriminate.
    intros _. destruct Hst as [stream Hsrc]; [by rewrite Hstatus|].
    exists stream. by rewrite Hsrc.
  - destruct (mediaStreamStatus st) eqn:Hstatus; try discriminate; done.
Qed.

Lemma toggle_does_what_the_button_says_witness :
  ∃ st obs,
    run true mounted_state
      [MountedHook; DevicesResolved [Scenario.camera];
       UserMediaResolved Scenario.stream] = Some (st, obs)
    ∧ toggleMediaStreamButtonText st = "Stop Media Stream"
    ∧ (toggleMediaStream st).2 = [CallTrackStop 0; CallTrackStop 1].
Proof.
  eexists _, _.
  assert (Hrun : run true mounted_state
                   [MountedHook; DevicesResolved [Scenario.camera];
                    UserMediaResolved Scenario.stream] = Some (_, _))
    by (vm_compute; reflexivity).
  destruct (toggle_does_what_the_button_says _ _ _ _ Hrun)
    as (_ & Hstop & _).
  destruct (Hstop eq_refl) as (stream & Hsrc & Htoggle).
  split; [exact Hrun|]. split; [reflexivity|].
  rewrite Htoggle. simpl in Hsrc. injection Hsrc as <-. reflexivity.
Defined.

(** X17. Every restart of the camera adds a drawing loop. [initMediaStream]
    adds a 'play' listener each time it gets a stream and none is ever
    removed, so in every run from the mounted page the number of listeners
    is the number of streams obtained; a 'play' event then calls
    [renderCanvas] once per listener, and each call starts a timer chain of
    its own. *)
Theorem play_listeners_pile_up (es : list Event) (st : State)
  (obs : list Obs) :
  run true mounted_state es = Some (st, obs) →
  play_listeners st = length (List.filter is_stream_resolved es)
  ∧ ∃ st' obs',
      step true st PlayFired = Some (st', obs')
      ∧ timers st' = timers st ++ replicate (play_listeners st) frame_delay
      ∧ set_timeouts obs' = replicate (play_listeners st) frame_delay.
Proof.
  intros Hrun.
  assert (has_stream_unless_initial mounted_state) as Hinit
    by (intros Hne; by simpl in Hne).
  destruct (run_stream _ _ _ _ _ Hinit Hrun) as (_ & _ & Hl).
  split; [exact Hl|].
  destruct (play_event true (play_listeners st) st) as [st' obs'] eqn:Hplay.
  exists st', obs'. cbn [step]. rewrite Hplay.
  pose proof (play_event_timers (play_listeners st) st) as (Ht & Ho & _).
  rewrite Hplay in Ht, Ho. done.
Qed.

Lemma play_listeners_pile_up_witness :
  ∃ st obs st' obs',
    run true mounted_state
      [MountedHook; DevicesResolved [Scenario.camera];
       UserMediaResolved Scenario.stream;
       ToggleClicked; ToggleClicked; DevicesResolved [Scenario.camera];
       UserMediaResolved Scenario.stream] = Some (st, obs)
    ∧ play_listeners st = 2
    ∧ step true st PlayFired = Some (st', obs')
    ∧ timers st' = [frame_delay; frame_delay].
Proof.
  eexists _, _.
  assert (Hrun : run true mounted_state
                   [MountedHook; DevicesResolved [Scenario.camera];
                    UserMediaResolved Scenario.stream;
                    ToggleClicked; ToggleClicked;
                    DevicesResolved [Scenario.camera];
                    UserMediaResolved Scenario.stream] = Some (_, _))
    by (vm_compute; reflexivity).
  destruct (play_listeners_pile_up _ _ _ Hrun)
    as (Hn & st' & obs' & Hstep & Ht & _).
  exists st', obs'. split; [exact Hrun|]. split; [exact Hn|].
  split; [exact Hstep|exact Ht].
Defined.

(** X18. Without a 2D context the recorder page draws nothing. If the
    output canvas has no 2D context, [renderCanvas] throws before its first
    draw: in every run from the mounted page no frame is drawn, no worker
    timer is set, and so no timer is there to fire. *)
Theorem recorder_without_context_draws_nothing (es : list Event)
  (st : State) (obs : list Obs) :
  run false mounted_state es = Some (st, obs) →
  timers st = []
  ∧ List.filter is_drawing obs = []
  ∧ List.filter is_timer_fired es = [].
Proof. intros Hrun. eapply run_no_context; [|exact Hrun]. done. Qed.

Lemma recorder_without_context_draws_nothing_witness :
  ∃ st obs,
    run false mounted_state
      [MountedHook; DevicesResolved [Scenario.microphone; Scenario.camera];
       UserMediaResolved Scenario.stream; PlayFired] = Some (st, obs)
    ∧ mediaStreamStatus st = started
    ∧ List.filter is_drawing obs = [].
Proof.
  eexists _, _.
  match goal with
  | |- ?A ∧ _ => assert (Hrun : A) by (vm_compute; reflexivity)
  end.
  destruct (recorder_without_context_draws_nothing _ _ _ Hrun)
    as (_ & Hd & _).
  split; [exact Hrun|]. split; [reflexivity|exact Hd].
Defined.

End RecorderMore.

(** ** The recorder page: the recordings *)

Module RecordingMoreFacts.
Import Recording RecordingFacts RecordingView.

Lemma later_of_refl c : later_of c c.
Proof. by split_and!. Qed.

Lemma later_of_trans c1 c2 c3 : later_of c1 c2 → later_of c2 c3 → later_of c1 c3.
Proof.
  intros (R1 & S1 & P1 & T1 & D1) (R2 & S2 & P2 & T2 & D2). split_and!.
  - intros H. rewrite R2; rewrite R1; congruence.
  - intros H. rewrite S2; rewrite S1; congruence.
  - intros H. rewrite P2; rewrite P1; congruence.
  - auto.
  - by etrans.
Qed.

(** A handler followed by [settle] gives a later stage of the record. *)
Lemma settled_later c c0 :
  later_of c c0 →
  later_of c {| data := data c0; stopped_p := stopped_p c0;
                recorded_p := recorded_p c0; timeout_set := timeout_set c0;
                returned := settled c0 |}.
Proof.
  intros (R & S & P & T & D). unfold settled. split_and!; simpl; try done.
  intros H. rewrite <- (R H).
  destruct (returned c0) eqn:Hr; try done. by rewrite (R H) in H.
Qed.

Lemma onstop_later c : later_of c (onstop c).
Proof.
  split_and!; simpl; try done. unfold settle_promise.
  by destruct (stopped_p c).
Qed.

Lemma onerror_later name c : later_of c (onerror name c).
Proof.
  split_and!; simpl; try done. unfold settle_promise.
  by destruct (stopped_p c).
Qed.

Lemma ontimeout_later c : later_of c (ontimeout c).
Proof.
  split_and!; simpl; try done. unfold settle_promise.
  by destruct (recorded_p c).
Qed.

Lemma ondataavailable_later chunk c : later_of c (ondataavailable chunk c).
Proof. split_and!; simpl; try done. by apply prefix_app_r. Qed.

(** What a step does to the list of calls: it appends a fresh record, or
    replaces one record by a later stage of it. *)
Lemma step_calls st e st' obs :
  step st e = Some (st', obs) →
  (e = RecordClicked
   ∧ calls st' = calls st ++ [{| data := []; stopped_p := Pending;
                                 recorded_p := Pending; timeout_set := true;
                                 returned := Pending |}])
  ∨ (∃ k c c', e ≠ RecordClicked ∧ calls st !! k = Some c
               ∧ calls st' = <[k := c']> (calls st) ∧ later_of c c').
Proof.
  intros H. destruct e as [|k chunk|k|k name|k]; cbn [step] in H.
  - left. unfold startRecording_call in H. by simplify_eq.
  - right. destruct (calls st !! k) as [c|] eqn:Hk; [|done].
    simpl in H. simplify_eq.
    exists k, c, (ondataavailable chunk c).
    split_and!; try done. apply ondataavailable_later.
  - right. destruct (calls st !! k) as [c|] eqn:Hk; [|done].
    simpl in H. simplify_eq.
    pose proof (settle_calls k (onstop c) st) as Hc. rewrite H in Hc.
    eexists k, c, _. split_and!; [done|done|exact Hc|].
    apply settled_later, onstop_later.
  - right. destruct (calls st !! k) as [c|] eqn:Hk; [|done].
    simpl in H. simplify_eq.
    pose proof (settle_calls k (onerror name c) st) as Hc. rewrite H in Hc.
    eexists k, c, _. split_and!; [done|done|exact Hc|].
    apply settled_later, onerror_later.
  - right. destruct (calls st !! k) as [c|] eqn:Hk; [|done]. simpl in H.
    destruct (timeout_set c); [|done].
    pose proof (settle_calls k (ontimeout c) st) as Hc.
    destruct (settle k (ontimeout c) st) as [st1 obs1]. simplify_eq.
    eexists k, c, _. split_and!; [done|done|exact Hc|].
    apply settled_later, ontimeout_later.
Qed.

Lemma step_later st e st' obs k c :
  step st e = Some (st', obs) → calls st !! k = Some c →
  ∃ c', calls st' !! k = Some c' ∧ later_of c c'.
Proof.
  intros H Hk.
  destruct (step_calls _ _ _ _ H) as [[_ Heq]|(j & c0 & c1 & _ & Hj & Heq & Hl)].
  - exists c. rewrite Heq. split; [|apply later_of_refl].
    by apply lookup_app_l_Some.
  - rewrite Heq. destruct (decide (j = k)) as [->|Hne].
    + exists c1. rewrite list_lookup_insert_eq by (by eapply lookup_lt_Some).
      split; [done|]. by simplify_eq.
    + exists c. rewrite list_lookup_insert_ne by done.
      split; [done|apply later_of_refl].
Qed.

Lemma run_later es : ∀ st st' obs k c,
  run st es = Some (st', obs) → calls st !! k = Some c →
  ∃ c', calls st' !! k = Some c' ∧ later_of c c'.
Proof.
  induction es as [|e es IH]; intros st st' obs k c H Hk; cbn [run] in H.
  - simplify_eq. exists c. split; [done|apply later_of_refl].
  - destruct (step st e) as [[st1 obs1]|] eqn:Hstep; [|done].
    destruct (run st1 es) as [[st2 obs2]|] eqn:Hrun; [|done].
    simplify_eq.
    destruct (step_later _ _ _ _ _ _ Hstep Hk) as (c1 & Hk1 & Hl1).
    destruct (IH _ _ _ _ _ Hrun Hk1) as (c2 & Hk2 & Hl2).
    exists c2. split; [done|]. by eapply later_of_trans.
Qed.

Lemma chunks_of_app k es1 es2 :
  chunks_of k (es1 ++ es2) = chunks_of k es1 ++ chunks_of k es2.
Proof. unfold chunks_of. apply omap_app. Qed.

(** Replacing one element moves the count of a filter by that element. *)
Lemma filter_insert_length {A} (f : A → bool) (l : list A) j c c' :
  l !! j = Some c →
  length (List.filter f (<[j := c']> l)) + (if f c then 1 else 0) =
    length (List.filter f l) + (if f c' then 1 else 0).
Proof.
  revert j. induction l as [|x l IH]; intros j Hj; [done|].
  destruct j as [|j]; simpl in *.
  - simplify_eq. destruct (f c), (f c'); simpl; lia.
  - specialize (IH j Hj). destruct (f x); simpl; lia.
Qed.

(** What [settle] lets the page do to the outside. *)
Lemma settle_obs k c st :
  (settle k c st).2 =
    match returned c, stopped_p c, recorded_p c with
    | Pending, Rejected reason, _ => [Thrown "startRecording" reason]
    | Pending, Resolved, Resolved =>
        [CallCreateObjectURL (new_Blob (data c) "video/webm")]
    | _, _, _ => []
    end.
Proof.
  unfold settle, startRecording_resume.
  by destruct (returned c), (stopped_p c), (recorded_p c).
Qed.

(** [settle] either lets the call go on after its [await], which sets the
    download, or leaves status and download alone. *)
Lemma settle_page k c st :
  (returned c = Pending ∧ settled c = Resolved
   ∧ recordingStatus (settle k c st).1 = stopped
   ∧ recordingVideo_src (settle k c st).1
     = Some (ObjectURL (new_Blob (data c) "video/webm"))
   ∧ download_href (settle k c st).1
     = Some (ObjectURL (new_Blob (data c) "video/webm"))
   ∧ download_name (settle k c st).1 = Some "RecordedVideo.webm")
  ∨ ((settled c = Resolved → returned c = Resolved)
     ∧ recordingStatus (settle k c st).1 = recordingStatus st
     ∧ recordingVideo_src (settle k c st).1 = recordingVideo_src st
     ∧ download_href (settle k c st).1 = download_href st
     ∧ download_name (settle k c st).1 = download_name st).
Proof.
  unfold settle, settled, startRecording_resume.
  destruct (returned c), (stopped_p c), (recorded_p c); simpl;
    first [by left | by right].
Qed.

Lemma counted_insert st obs j c c' st' pre post :
  Counted st obs → calls st !! j = Some c →
  calls st' = <[j := c']> (calls st) →
  (pre = [] ∧ timeout_set c' = timeout_set c)
  ∨ (pre = [CallRecorderStop j] ∧ timeout_set c = true
     ∧ timeout_set c' = false) →
  (∀ k, List.filter (is_stop_of k) post = []) →
  List.filter is_set_timeout post = [] →
  length (List.filter is_create_url post) + (if has_returned c then 1 else 0)
    = (if has_returned c' then 1 else 0) →
  Counted st' (obs ++ pre ++ post).
Proof.
  intros [Hstop Hurl Htime] Hj Hcalls Hpre Hpost_stop Hpost_time Hpost_url.
  pose proof (lookup_lt_Some _ _ _ Hj) as Hlt.
  split.
  - intros k. rewrite !List.filter_app, !length_app, Hpost_stop, Hstop, Hcalls.
    simpl. destruct (decide (j = k)) as [->|Hne].
    + rewrite list_lookup_insert_eq by done. rewrite Hj.
      destruct Hpre as [[-> Ht]|(-> & Ht & Ht')]; simpl.
      * rewrite Ht. lia.
      * rewrite Ht, Ht', bool_decide_eq_true_2 by done. simpl. lia.
    + rewrite list_lookup_insert_ne by done.
      destruct Hpre as [[-> Ht]|(-> & Ht & Ht')]; simpl; [lia|].
      rewrite bool_decide_eq_false_2 by done. simpl. lia.
  - rewrite !List.filter_app, !length_app, Hurl, Hcalls.
    pose proof (filter_insert_length has_returned (calls st) j c c' Hj).
    assert (List.filter is_create_url pre = []) as ->
      by (destruct Hpre as [[-> _]|(-> & _)]; done).
    simpl. lia.
  - rewrite !List.filter_app, !length_app, Htime, Hpost_time, Hcalls.
    assert (List.filter is_set_timeout pre = []) as ->
      by (destruct Hpre as [[-> _]|(-> & _)]; done).
    rewrite length_insert. simpl. lia.
Qed.

(** After a handler [c'] of record [c] that leaves [returned] alone,
    [settle] keeps the counts right. *)
Lemma counted_settle st obs j c c' pre :
  Counted st obs → calls st !! j = Some c → returned c' = returned c →
  (pre = [] ∧ timeout_set c' = timeout_set c)
  ∨ (pre = [CallRecorderStop j] ∧ timeout_set c = true
     ∧ timeout_set c' = false) →
  Counted (settle j c' st).1 (obs ++ pre ++ (settle j c' st).2).
Proof.
  intros HC Hj Hret Hpre.
  eapply counted_insert; [done|done|apply settle_calls|done| | |].
  - intros k. rewrite settle_obs.
    by destruct (returned c'), (stopped_p c'), (recorded_p c').
  - rewrite settle_obs.
    by destruct (returned c'), (stopped_p c'), (recorded_p c').
  - rewrite settle_obs. unfold has_returned, settled. simpl. rewrite <- Hret.
    by destruct (returned c'), (stopped_p c'), (recorded_p c').
Qed.

Lemma step_Counted st obs e st' obs' :
  Counted st obs → step st e = Some (st', obs') → Counted st' (obs ++ obs').
Proof.
  intros HC H. destruct e as [|j chunk|j|j name|j]; cbn [step] in H.
  - unfold startRecording_call in H. simplify_eq.
    destruct HC as [Hstop Hurl Htime]. split; simpl.
    + intros k. rewrite List.filter_app, length_app, Hstop. simpl.
      destruct (calls st !! k) as [c|] eqn:Hk.
      * rewrite (lookup_app_l_Some _ _ _ _ Hk). lia.
      * apply lookup_ge_None in Hk.
        destruct (decide (k = length (calls st))) as [->|Hne].
        -- rewrite list_lookup_middle by done. simpl. lia.
        -- rewrite lookup_ge_None_2; [lia|]. rewrite length_app. simpl. lia.
    + rewrite !List.filter_app, !length_app, Hurl. simpl. lia.
    + rewrite !List.filter_app, !length_app, Htime. simpl. lia.
  - destruct (calls st !! j) as [c|] eqn:Hj; [|done].
    simpl in H. simplify_eq.
    replace (obs ++ []) with (obs ++ [] ++ @nil Obs) by done.
    eapply (counted_insert st obs j c (ondataavailable chunk c));
      [done|done|done|by left|done|done|].
    unfold has_returned. simpl. by destruct (returned c).
  - destruct (calls st !! j) as [c|] eqn:Hj; [|done].
    simpl in H. simplify_eq.
    pose proof (counted_settle st obs j c (onstop c) [] HC Hj eq_refl
                  (or_introl (conj eq_refl eq_refl))) as HC'.
    by rewrite H in HC'.
  - destruct (calls st !! j) as [c|] eqn:Hj; [|done].
    simpl in H. simplify_eq.
    pose proof (counted_settle st obs j c (onerror name c) [] HC Hj eq_refl
                  (or_introl (conj eq_refl eq_refl))) as HC'.
    by rewrite H in HC'.
  - destruct (calls st !! j) as [c|] eqn:Hj; [|done]. simpl in H.
    destruct (timeout_set c) eqn:Hset; [|done].
    pose proof (counted_settle st obs j c (ontimeout c) [CallRecorderStop j]
                  HC Hj eq_refl
                  (or_intror (conj eq_refl (conj Hset eq_refl)))) as HC'.
    destruct (settle j (ontimeout c) st) as [st1 obs1]. by simplify_eq.
Qed.

Lemma Counted_mounted : Counted mounted_state [].
Proof. split; simpl; done. Qed.

Lemma run_Counted es : ∀ st obs,
  run mounted_state es = Some (st, obs) → Counted st obs.
Proof.
  induction es as [|e es IH] using rev_ind; intros st obs H.
  - simpl in H. simplify_eq. apply Counted_mounted.
  - rewrite run_snoc in H.
    destruct (run mounted_state es) as [[st1 obs1]|]; [|done].
    destruct (step st1 e) as [[st2 obs2]|] eqn:Hstep; [|done].
    simplify_eq. eauto using step_Counted.
Qed.

Lemma run_calls_length es : ∀ st st' obs,
  run st es = Some (st', obs) →
  length (calls st') = length (calls st) + length (List.filter is_record es).
Proof.
  induction es as [|e es IH]; intros st st' obs H; cbn [run] in H.
  - simplify_eq. simpl. lia.
  - destruct (step st e) as [[st1 obs1]|] eqn:Hstep; [|done].
    destruct (run st1 es) as [[st2 obs2]|] eqn:Hrun; [|done].
    simplify_eq. rewrite (IH _ _ _ Hrun).
    destruct (step_calls _ _ _ _ Hstep)
      as [[-> Heq]|(j & c0 & c1 & Hne & _ & Heq & _)]; rewrite Heq.
    + rewrite length_app. simpl. lia.
    + rewrite length_insert. destruct e; simpl; try done; lia.
Qed.

Lemma step_Download st e st' obs :
  Download st → step st e = Some (st', obs) → Download st'.
Proof.
  intros [Hsame Hname Hret Hinit] H.
  assert (Hins : ∀ j c c' st1,
    calls st !! j = Some c → calls st1 = <[j := c']> (calls st) →
    (returned c = Resolved → returned c' = Resolved) →
    ((returned c' = Resolved → returned c = Resolved)
     ∧ recordingStatus st1 = recordingStatus st
     ∧ recordingVideo_src st1 = recordingVideo_src st
     ∧ download_href st1 = download_href st
     ∧ download_name st1 = download_name st)
    ∨ (returned c' = Resolved ∧ recordingStatus st1 = stopped
       ∧ (∃ url, recordingVideo_src st1 = Some url
                 ∧ download_href st1 = Some url)
       ∧ download_name st1 = Some "RecordedVideo.webm") →
    Download st1).
  { intros j c c' st1 Hj Hcalls Hmono Hcase.
    pose proof (lookup_lt_Some _ _ _ Hj) as Hlt.
    assert (Hnonempty : calls st1 = [] ↔ calls st = []).
    { rewrite Hcalls. split; intros Hnil.
      - apply (f_equal length) in Hnil. rewrite length_insert in Hnil.
        by destruct (calls st).
      - by rewrite Hnil. }
    assert (Hold : (∃ k c0, calls st !! k = Some c0 ∧ returned c0 = Resolved) →
                   ∃ k c0, calls st1 !! k = Some c0 ∧ returned c0 = Resolved).
    { intros (k & c0 & Hk & Hr). rewrite Hcalls.
      destruct (decide (j = k)) as [->|Hne].
      - exists k, c'. rewrite list_lookup_insert_eq by done.
        split; [done|]. apply Hmono. by simplify_eq.
      - exists k, c0. by rewrite list_lookup_insert_ne by done. }
    destruct Hcase as [(Hback & Hs & Hv & Hh & Hn)|(Hr & Hs & (url & Hv & Hh) & Hn)].
    - split.
      + by rewrite Hv, Hh.
      + by rewrite Hn, Hh.
      + rewrite Hh, Hret. split; [exact Hold|].
        intros (k & c0 & Hk & Hr). rewrite Hcalls in Hk.
        destruct (decide (j = k)) as [->|Hne].
        * rewrite list_lookup_insert_eq in Hk by done. simplify_eq.
          exists k, c. auto.
        * rewrite list_lookup_insert_ne in Hk by done. eauto.
      + by rewrite Hs, Hinit, Hnonempty.
    - split.
      + by rewrite Hv, Hh.
      + by rewrite Hn, Hh.
      + rewrite Hh. split; [|eauto]. intros _.
        exists j, c'. rewrite Hcalls, list_lookup_insert_eq by done. done.
      + rewrite Hs, Hnonempty. split; [done|].
        intros Hnil. rewrite Hnil in Hj. by rewrite lookup_nil in Hj. }
  assert (Hsettle : ∀ j c c0,
    calls st !! j = Some c → returned c0 = returned c →
    Download (settle j c0 st).1).
  { intros j c c0 Hj Hr0.
    eapply (Hins j c); [done|apply settle_calls| |].
    - simpl. unfold settled. rewrite Hr0. by intros ->.
    - simpl. destruct (settle_page j c0 st)
        as [(Hp & Hres & Hs & Hv & Hh & Hn)|(Hback & Hs & Hv & Hh & Hn)].
      + right. split_and!; eauto.
      + left. rewrite <- Hr0. by split_and!. }
  destruct e as [|j chunk|j|j name|j]; cbn [step] in H.
  - unfold startRecording_call in H. simplify_eq. split; simpl; try done.
    + rewrite Hret. split; intros (k & c & Hk & Hr).
      * exists k, c. by rewrite (lookup_app_l_Some _ _ _ _ Hk).
      * apply lookup_app_Some in Hk as [Hk|[_ Hk]]; [eauto|].
        apply list_lookup_singleton_Some in Hk as [_ <-]. done.
    + split; [done|]. intros Hnil. by destruct (calls st).
  - destruct (calls st !! j) as [c|] eqn:Hj; [|done].
    simpl in H. simplify_eq.
    eapply (Hins j c); [done|done|done|]. left. by split_and!.
  - destruct (calls st !! j) as [c|] eqn:Hj; [|done].
    simpl in H. simplify_eq.
    pose proof (Hsettle j c (onstop c) Hj eq_refl) as HD. by rewrite H in HD.
  - destruct (calls st !! j) as [c|] eqn:Hj; [|done].
    simpl in H. simplify_eq.
    pose proof (Hsettle j c (onerror name c) Hj eq_refl) as HD.
    by rewrite H in HD.
  - destruct (calls st !! j) as [c|] eqn:Hj; [|done]. simpl in H.
    destruct (timeout_set c); [|done].
    pose proof (Hsettle j c (ontimeout c) Hj eq_refl) as HD.
    destruct (settle j (ontimeout c) st) as [st1 obs1]. by simplify_eq.
Qed.

Lemma Download_mounted : Download mounted_state.
Proof.
  split; simpl; try done.
  split; [by intros [? ?]|]. intros (k & c & Hk & _).
  by rewrite lookup_nil in Hk.
Qed.

Lemma run_Download es : ∀ st st' obs,
  Download st → run st es = Some (st', obs) → Download st'.
Proof.
  induction es as [|e es IH]; intros st st' obs HD H; cbn [run] in H.
  - by simplify_eq.
  - destruct (step st e) as [[st1 obs1]|] eqn:Hstep; [|done].
    destruct (run st1 es) as [[st2 obs2]|] eqn:Hrun; [|done].
    simplify_eq. eauto using step_Download.
Qed.

End RecordingMoreFacts.

Section RecordingMore.
Import Recording RecordingFacts RecordingView RecordingMoreFacts.

(** X19. What has settled stays settled. Whatever happens later, a call of
    [startRecording] that has returned or was rejected stays so, its
    promises keep the value they settled with (a stop event after an error
    changes nothing, and the other way round), its timeout does not fire
    twice, and its buffer only grows at the end. In particular a recording
    whose recorder reported an error before it stopped never sets the
    download. *)
Theorem promises_settle_once (st st' : State) (es : list Event)
  (obs : list Obs) (k : nat) (c : Call) :
  run st es = Some (st', obs) →
  calls st !! k = Some c →
  ∃ c', calls st' !! k = Some c'
        ∧ later_of c c'
        ∧ (∀ reason, returned c = Rejected reason →
                     returned c' = Rejected reason)
        ∧ (returned c = Resolved → returned c' = Resolved).
Proof.
  intros Hrun Hk.
  destruct (run_later _ _ _ _ _ _ Hrun Hk) as (c' & Hk' & Hl).
  exists c'. split_and!; [done|done| |].
  - intros reason Hr. destruct Hl as (R & _). rewrite R; congruence.
  - intros Hr. destruct Hl as (R & _). rewrite R; congruence.
Qed.

Lemma promises_settle_once_witness :
  ∃ st obs st' obs' c',
    run mounted_state [RecordClicked; ErrorFired 0 "SecurityError"]
    = Some (st, obs)
    ∧ run st [TimeoutFired 0; StopFired 0] = Some (st', obs')
    ∧ calls st' !! 0 = Some c'
    ∧ returned c' = Rejected "SecurityError"
    ∧ download_href st' = None.
Proof.
  eexists _, _, _, _.
  match goal with
  | |- ∃ c', ?A ∧ ?B ∧ _ =>
      assert (H1 : A) by (vm_compute; reflexivity);
      assert (H2 : B) by (vm_compute; reflexivity)
  end.
  destruct (promises_settle_once _ _ _ _ 0 _ H2 eq_refl)
    as (c' & Hk & _ & Hrej & _).
  exists c'. split; [exact H1|]. split; [exact H2|]. split; [exact Hk|].
  split; [exact (Hrej _ eq_refl)|reflexivity].
Defined.

(** X20. The buffer of a recording is what its recorder delivered, in the
    order of delivery. In every run from the mounted page [data] of call
    [k] is the list of the chunks of the [dataavailable] events of recorder
    [k] so far: none is dropped, reordered or taken from another
    recording. *)
Theorem chunks_buffered_in_order (es : list Event) (st : State)
  (obs : list Obs) :
  run mounted_state es = Some (st, obs) →
  ∀ k, chunks_of k es = match calls st !! k with
                        | Some c => data c
                        | None => []
                        end.
Proof.
  revert st obs. induction es as [|e es IH] using rev_ind; intros st obs H k.
  - simpl in H. by simplify_eq.
  - rewrite run_snoc in H.
    destruct (run mounted_state es) as [[st1 obs1]|] eqn:Hrun; [|done].
    destruct (step st1 e) as [[st2 obs2]|] eqn:Hstep; [|done].
    simplify_eq. rewrite chunks_of_app, (IH st1 obs1 eq_refl k).
    destruct e as [|j chunk|j|j name|j]; cbn [step] in Hstep.
    + unfold startRecording_call in Hstep. simplify_eq. simpl.
      rewrite app_nil_r.
      destruct (calls st1 !! k) as [c|] eqn:Hk.
      * by rewrite (lookup_app_l_Some _ _ _ _ Hk).
      * apply lookup_ge_None in Hk.
        destruct (decide (k = length (calls st1))) as [->|Hne].
        -- by rewrite list_lookup_middle.
        -- rewrite lookup_ge_None_2; [done|]. rewrite length_app. simpl. lia.
    + destruct (calls st1 !! j) as [c|] eqn:Hj; [|done].
      simpl in Hstep. simplify_eq. simpl.
      destruct (decide (j = k)) as [->|Hne].
      * rewrite Hj. rewrite list_lookup_insert_eq by (by eapply lookup_lt_Some).
        done.
      * rewrite list_lookup_insert_ne by done. by rewrite app_nil_r.
    + destruct (calls st1 !! j) as [c|] eqn:Hj; [|done].
      simpl in Hstep. simplify_eq.
      pose proof (settle_calls j (onstop c) st1) as Hc. rewrite Hstep in Hc.
      simpl in Hc. rewrite Hc. simpl. rewrite app_nil_r.
      destruct (decide (j = k)) as [->|Hne].
      * rewrite Hj. by rewrite list_lookup_insert_eq by (by eapply lookup_lt_Some).
      * by rewrite list_lookup_insert_ne by done.
    + destruct (calls st1 !! j) as [c|] eqn:Hj; [|done].
      simpl in Hstep. simplify_eq.
      pose proof (settle_calls j (onerror name c) st1) as Hc.
      rewrite Hstep in Hc. simpl in Hc. rewrite Hc. simpl. rewrite app_nil_r.
      destruct (decide (j = k)) as [->|Hne].
      * rewrite Hj. by rewrite list_lookup_insert_eq by (by eapply lookup_lt_Some).
      * by rewrite list_lookup_insert_ne by done.
    + destruct (calls st1 !! j) as [c|] eqn:Hj; [|done]. simpl in Hstep.
      destruct (timeout_set c); [|done].
      pose proof (settle_calls j (ontimeout c) st1) as Hc.
      destruct (settle j (ontimeout c) st1) as [st3 obs3]. simplify_eq.
      simpl in Hc. rewrite Hc. simpl. rewrite app_nil_r.
      destruct (decide (j = k)) as [->|Hne].
      * rewrite Hj. by rewrite list_lookup_insert_eq by (by eapply lookup_lt_Some).
      * by rewrite list_lookup_insert_ne by done.
Qed.

Lemma chunks_buffered_in_order_witness :
  ∃ st obs c,
    run mounted_state Scenario.take = Some (st, obs)
    ∧ calls st !! 0 = Some c
    ∧ data c = [Scenario.chunk1; Scenario.chunk2].
Proof.
  eexists _, _, _.
  assert (Hrun : run mounted_state Scenario.take = Some (_, _))
    by (vm_compute; reflexivity).
  pose proof (chunks_buffered_in_order _ _ _ Hrun 0) as Hdata.
  split; [exact Hrun|]. split; [reflexivity|]. symmetry. exact Hdata.
Defined.

(** X21. One stop, one timeout and at most one download for each recording.
    In every run from the mounted page [recorder.stop()] is called at most
    once on each recorder, one timeout has been set for each click on
    Record, and the object URLs created are at most as many as the
    recordings started: the code after the [await] runs at most once for
    each call. *)
Theorem one_stop_and_one_url_per_recording (es : list Event) (st : State)
  (obs : list Obs) :
  run mounted_state es = Some (st, obs) →
  (∀ k, length (List.filter (is_stop_of k) obs) ≤ 1)
  ∧ length (calls st) = length (List.filter is_record es)
  ∧ length (List.filter is_set_timeout obs)
    = length (List.filter is_record es)
  ∧ length (List.filter is_create_url obs)
    = length (List.filter has_returned (calls st))
  ∧ length (List.filter is_create_url obs)
    ≤ length (List.filter is_record es).
Proof.
  intros Hrun.
  destruct (run_Counted _ _ _ Hrun) as [Hstop Hurl Htime].
  pose proof (run_calls_length _ _ _ _ Hrun) as Hlen. simpl in Hlen.
  split_and!.
  - intros k. rewrite Hstop.
    destruct (calls st !! k) as [c|]; [destruct (timeout_set c)|]; lia.
  - lia.
  - lia.
  - done.
  - rewrite Hurl, <- Hlen. apply List.filter_length_le.
Qed.

Lemma one_stop_and_one_url_per_recording_witness :
  ∃ st obs,
    run mounted_state (Scenario.take ++ [Recording.StopFired 0]) = Some (st, obs)
    ∧ length (List.filter (is_stop_of 0) obs) = 1
    ∧ length (List.filter is_create_url obs) = 1.
Proof.
  eexists _, _.
  match goal with
  | |- ?A ∧ _ => assert (Hrun : A) by (vm_compute; reflexivity)
  end.
  destruct (one_stop_and_one_url_per_recording _ _ _ Hrun) as (Hstop & _).
  split; [exact Hrun|]. split; [|reflexivity].
  apply Nat.le_antisymm; [apply Hstop | vm_compute; lia].
Defined.

(** X22. The download fields move together. In every run from the mounted
    page [recordingVideo.src] and [downloadButton.href] hold the same URL;
    the download name is 'RecordedVideo.webm' exactly when there is a URL;
    there is a URL exactly when some call of [startRecording] has returned;
    and the status is initial exactly as long as Record was never
    clicked. *)
Theorem download_fields_move_together (es : list Event) (st : State)
  (obs : list Obs) :
  run mounted_state es = Some (st, obs) →
  recordingVideo_src st = download_href st
  ∧ download_name st =
      match download_href st with
      | Some _ => Some "RecordedVideo.webm"
      | None => None
      end
  ∧ (is_Some (download_href st) ↔
     ∃ k c, calls st !! k = Some c ∧ returned c = Resolved)
  ∧ (recordingStatus st = initial ↔ List.filter is_record es = []).
Proof.
  intros Hrun.
  destruct (run_Download _ _ _ _ Download_mounted Hrun)
    as [Hsame Hname Hret Hinit].
  pose proof (run_calls_length _ _ _ _ Hrun) as Hlen. simpl in Hlen.
  split_and!; [done|done|done|].
  rewrite Hinit. split; intros Hnil.
  - rewrite Hnil in Hlen. simpl in Hlen.
    by destruct (List.filter is_record es).
  - rewrite Hnil in Hlen. simpl in Hlen. by destruct (calls st).
Qed.

Lemma download_fields_move_together_witness :
  ∃ st obs,
    run mounted_state Scenario.take = Some (st, obs)
    ∧ recordingVideo_src st = download_href st
    ∧ download_name st = Some "RecordedVideo.webm".
Proof.
  eexists _, _.
  match goal with
  | |- ?A ∧ _ => assert (Hrun : A) by (vm_compute; reflexivity)
  end.
  destruct (download_fields_move_together _ _ _ Hrun) as (Hsame & _).
  split; [exact Hrun|]. split; [exact Hsame|reflexivity].
Defined.

End RecordingMore.
